(** * war2: a shallow embedding of the selection logic, the globe
    renderer's state updates and the offline battle-log generator.

    Conventions of the embedding.
    - A JavaScript [number] that holds a measure (angles, pixel positions,
      seconds, life fractions) is an exact rational [Q]; IEEE-754 rounding is
      not modelled.  A [number] that holds a 32-bit or integral quantity is a
      [Z] with its wrap-around written out.
    - A JavaScript string is a [string]: every [ascii] is one UTF-16 code unit
      below 256.
    - [Math.random()] is a draw from an explicit stream threaded through a
      small state monad.
    - The d3 geometry routines (centroid, containment, interpolation,
      projection and its inverse) are an interface the renderer is
      parameterised over. *)

From Stdlib Require Import ZArith QArith Qround Qpower List String Ascii Bool.
From Stdlib Require Import Reals Qreals Lra.
From Stdlib Require Import Lia Lqa DecimalString.
Import ListNotations.

Local Open Scope string_scope.
Local Open Scope Q_scope.

(** ** Numbers *)

Module Num.

(** [x < y] on numbers, as a boolean. *)
Definition ltb (x y : Q) : bool := negb (Qle_bool y x).
(** [x <= y] on numbers, as a boolean. *)
Definition leb (x y : Q) : bool := Qle_bool x y.

(** [Math.min], [Math.max]. *)
Definition min (x y : Q) : Q := if Qle_bool x y then x else y.
Definition max (x y : Q) : Q := if Qle_bool x y then y else x.

(** [Math.abs]. *)
Definition abs (x : Q) : Q := if Qle_bool 0 x then x else - x.

(** Truncation toward zero. *)
Definition trunc (x : Q) : Z := Z.quot (Qnum x) (Zpos (Qden x)).

(** The [%] operator on numbers: the remainder has the sign of the
    dividend, [x % y = x - y * trunc (x / y)]. *)
Definition rem (x y : Q) : Q := x - y * inject_Z (trunc (x / y)).

(** [Math.pow(x, 2)]. *)
Definition sq (x : Q) : Q := x * x.

(** The test [Math.sqrt(s) < c].  The square root of a rational is
    irrational in general, so the comparison is decided on the squares:
    for [0 <= s], [sqrt s < c] exactly when [0 < c] and [s < c * c]
    (lemma [sqrt_ltb_real] relates it to the real square root). *)
Definition sqrt_ltb (s c : Q) : bool := ltb 0 c && ltb s (c * c).

(** [ToInt32], the wrap-around of [| 0], [>>] and [Math.imul]. *)
Definition toInt32 (z : Z) : Z := ((z + 2 ^ 31) mod 2 ^ 32 - 2 ^ 31)%Z.

(** [Math.imul]. *)
Definition imul (a b : Z) : Z := toInt32 (toInt32 a * toInt32 b).

(** [a >> k] (sign-propagating shift of the 32-bit value). *)
Definition sar (a : Z) (k : Z) : Z := Z.shiftr (toInt32 a) k.

(** [a % b] on integral numbers. *)
Definition remz (a b : Z) : Z := Z.rem a b.

End Num.

(** ** Strings *)

Module Str.

Definition nl : string := String "010"%char EmptyString.

(** [Array.prototype.join]. *)
Definition join (sep : string) (l : list string) : string := String.concat sep l.

(** [String(n)] of an integral number. *)
Definition showZ (z : Z) : string := NilZero.string_of_int (Z.to_int z).

Definition isWhite (c : ascii) : bool :=
  let n := nat_of_ascii c in
  ((9 <=? n) && (n <=? 13) || (n =? 32) || (n =? 160))%nat.

Fixpoint trimStart (s : string) : string :=
  match s with
  | EmptyString => EmptyString
  | String c r => if isWhite c then trimStart r else s
  end.

Fixpoint trimEnd (s : string) : string :=
  match s with
  | EmptyString => EmptyString
  | String c r =>
      match trimEnd r with
      | EmptyString => if isWhite c then EmptyString else String c EmptyString
      | r' => String c r'
      end
  end.

(** [String.prototype.trim]. *)
Definition trim (s : string) : string := trimEnd (trimStart s).

Definition lowerChar (c : ascii) : ascii :=
  let n := nat_of_ascii c in
  if ((65 <=? n) && (n <=? 90) || (192 <=? n) && (n <=? 222) && negb (n =? 215))%nat
  then ascii_of_nat (n + 32) else c.

(** [String.prototype.toLowerCase]. *)
Fixpoint toLowerCase (s : string) : string :=
  match s with
  | EmptyString => EmptyString
  | String c r => String (lowerChar c) (toLowerCase r)
  end.

End Str.

(** ** types.ts *)

Module Types.

(** [id: string | number]; [===] never identifies a string with a number. *)
Inductive FeatureId : Type :=
| IdStr (s : string)
| IdNum (n : Z).

Definition id_eqb (a b : FeatureId) : bool :=
  match a, b with
  | IdStr s, IdStr s' => String.eqb s s'
  | IdNum n, IdNum n' => Z.eqb n n'
  | _, _ => false
  end.

Definition LngLat : Type := (Q * Q)%type.

(** [geometry: any]: the polygons of the world atlas, in degrees. *)
Inductive Geometry : Type :=
| Polygon (rings : list (list LngLat))
| MultiPolygon (polygons : list (list (list LngLat))).

Record CountryFeature : Type := mkCountry {
  id : FeatureId;
  name : string;          (* properties.name *)
  geometry : Geometry
}.

Record WarState : Type := mkWarState {
  aggressor : option CountryFeature;
  defender : option CountryFeature;
  defenderAllies : list CountryFeature
}.

Inductive LogType : Type := INFO | WARNING | ERROR | AI | COMBAT.

(** A log line; its random id and wall-clock timestamp are left out. *)
Record SystemLog : Type := mkLog {
  message : string;
  type : LogType
}.

End Types.

(** ** Math.random *)

Module Rng.

(** The values the successive calls of [Math.random()] return. *)
Definition Stream : Type := nat -> Q.

(** A computation that draws from the stream. *)
Definition M (A : Type) : Type := Stream -> A * Stream.

Definition ret {A : Type} (a : A) : M A := fun g => (a, g).

Definition bind {A B : Type} (m : M A) (k : A -> M B) : M B :=
  fun g => let (a, g') := m g in k a g'.

(** [Math.random()]. *)
Definition random : M Q := fun g => (g O, fun n => g (S n)).

Definition eval {A : Type} (m : M A) (g : Stream) : A := fst (m g).

(** The stream that starts with the draws of [l] and goes on with [d]. *)
Definition ofList (l : list Q) (d : Q) : Stream := fun n => nth n l d.

Module Notations.
Declare Scope rng_scope.
Delimit Scope rng_scope with rng.
Notation "x <- m ;; k" := (bind m (fun x => k))
  (at level 61, m at next level, right associativity) : rng_scope.
End Notations.

End Rng.

(** ** services/geminiService.ts: the procedural fallback *)

Module GeminiService.
Import Str Rng.Notations.

(** [name.charCodeAt(i)]. *)

Definition charCode (c : ascii) : Z := Z.of_N (N_of_ascii c).

(** The loop [h = Math.imul(31, h) + name.charCodeAt(i) | 0]. *)
Fixpoint hashFrom (h : Z) (s : string) : Z :=
  match s with
  | EmptyString => h
  | String c r => hashFrom (Num.toInt32 (Num.imul 31 h + charCode c)) r
  end.

Definition getPowerScore (name : string) : Z :=
  let h := hashFrom 0 name in
  let seed := Z.abs h in
  let infantry := (40 + Num.remz seed 60)%Z in
  let armor := (40 + Num.remz (Num.sar seed 2) 60)%Z in
  let air := (40 + Num.remz (Num.sar seed 4) 60)%Z in
  let tech := (1 + Num.remz seed 10)%Z in
  (infantry + armor + air + tech * 10)%Z.

Definition EXTERNAL_EVENTS : list string := [
  "Neighboring nations impose a strict trade embargo, stifling supply lines.";
  "Orbital blockade established by the Lunar Defense Force.";
  "Neutral neighboring states mobilize borders to contain the conflict.";
  "UN Peacekeeping drone squadrons deployed to protect civilian sectors.";
  "Cyber-attack from a rogue third-party state blacks out the region.";
  "Mercenary fleets from the Outer Rim join the aggressor's vanguard.";
  "Global trade routes diverted, causing economic collapse in the defender's rear guard."
].

Definition BATTLE_TYPES : list string := [
  "Orbital Bombardment";
  "Cyber-Kinetic Hybrid Assault";
  "Amphibious Landing";
  "Guerrilla Drone Warfare";
  "High-Altitude Air Superiority";
  "Mech-Infantry Blitzkrieg"
].

(** [arr[Math.floor(r * arr.length)]]; the index is within the array for
    every draw [0 <= r < 1]. *)
Definition pick (arr : list string) (r : Q) : string :=
  nth (Z.to_nat (Qfloor (r * inject_Z (Z.of_nat (List.length arr))))) arr "undefined".

(** [allies.forEach(ally => alliesScore += getPowerScore(ally) * 0.5)]. *)
Definition alliesScoreOf (allies : list string) : Q :=
  fold_left (fun acc ally => acc + inject_Z (getPowerScore ally) * (1 # 2)) allies 0.

(** The chance of the aggressor, from the power scores. *)
Definition chanceOf (countryA countryB : string) (allies : list string) : Q :=
  let scoreA := inject_Z (getPowerScore countryA) in
  let scoreB := inject_Z (getPowerScore countryB) in
  let alliesScore := alliesScoreOf allies in
  let total := scoreA + scoreB + alliesScore in
  if Qeq_bool total 0 then 1 # 2 else scoreA / total.

(** The template literal of the report, before [trim]. *)
Definition report (countryA countryB : string) (allies : list string)
    (winner loser : string) (isCloseMatch : bool)
    (event battleType : string) (winProb : Z) : string :=
  let hasAllies := (0 <? List.length allies)%nat in
  nl ++ "*** SIMULATION REPORT (OFFLINE PROTOCOL) ***" ++ nl ++
  "SCENARIO: " ++ countryA ++ " vs " ++ countryB ++ " " ++
    (if hasAllies then "(+ " ++ join ", " allies ++ ")" else "") ++ nl ++
  nl ++
  "1. THEATER OF WAR:" ++ nl ++
  "Conflict escalates into a " ++ battleType ++ ". " ++ nl ++
  (if isCloseMatch then "Forces are evenly matched in initial skirmishes."
   else winner ++ " demonstrates immediate tactical superiority.") ++ nl ++
  (if hasAllies
   then "The intervention of " ++ join ", " allies ++
        " has significantly altered the battlefield dynamics."
   else "") ++ nl ++
  nl ++
  "2. EXTERNAL INFLUENCE:" ++ nl ++
  event ++ nl ++
  nl ++
  "3. TACTICAL ANALYSIS:" ++ nl ++
  winner ++ " effectively counters " ++ loser ++ "'s defenses using advanced " ++
    toLowerCase battleType ++ " tactics. " ++ nl ++
  loser ++ " attempts asymmetric countermeasures but sustains heavy infrastructure damage." ++ nl ++
  nl ++
  "4. PREDICTED OUTCOME:" ++ nl ++
  "VICTORY: " ++ winner ++ nl ++
  "CONFIDENCE: " ++ showZ winProb ++ "%" ++ nl ++
  loser ++ " is forced to retreat to secondary defensive lines." ++ nl ++
  "  ".

Definition generateMockWarLog (countryA countryB : string) (allies : list string)
    : Rng.M string :=
  (let chanceA := chanceOf countryA countryB allies in
   randomFactor <- Rng.random ;;
   let winner := if Num.ltb randomFactor chanceA then countryA else countryB in
   let loser := if String.eqb winner countryA then countryB else countryA in
   let isCloseMatch := Num.ltb (Num.abs (chanceA - (1 # 2))) (1 # 10) in
   r1 <- Rng.random ;;
   let event := pick EXTERNAL_EVENTS r1 in
   r2 <- Rng.random ;;
   let battleType := pick BATTLE_TYPES r2 in
   r3 <- Rng.random ;;
   let winProb := Qfloor (55 + r3 * 40) in
   Rng.ret (trim (report countryA countryB allies winner loser isCloseMatch
                         event battleType winProb)))%rng.

(** [simulateWarScenario]: the text of the remote model when the call
    succeeds with a non-empty text ([response = Some text]), the procedural
    fallback when it throws ([None]) or answers with an empty text. *)
Definition simulateWarScenario (response : option string)
    (countryA countryB : string) (allies : list string) : Rng.M string :=
  match response with
  | Some (String c r) => Rng.ret (String c r)
  | _ => generateMockWarLog countryA countryB allies
  end.

End GeminiService.

(** ** App.tsx: the selection handler *)

Module App.
Import Str Types Rng.Notations.

Record AppState : Type := mkApp {
  logs : list SystemLog;
  warState : WarState;
  isSimulating : bool;
  reconImage : option string;
  isSelectingAlly : bool
}.

Definition initialWarState : WarState :=
  {| aggressor := None; defender := None; defenderAllies := [] |}.

Definition initial (initialLogs : list SystemLog) : AppState :=
  {| logs := initialLogs; warState := initialWarState; isSimulating := false;
     reconImage := None; isSelectingAlly := false |}.

Definition addLog (msg : string) (ty : LogType) (s : AppState) : AppState :=
  {| logs := logs s ++ [ {| message := msg; type := ty |} ];
     warState := warState s; isSimulating := isSimulating s;
     reconImage := reconImage s; isSelectingAlly := isSelectingAlly s |}.

Definition setWarState (w : WarState) (s : AppState) : AppState :=
  {| logs := logs s; warState := w; isSimulating := isSimulating s;
     reconImage := reconImage s; isSelectingAlly := isSelectingAlly s |}.

Definition setIsSelectingAlly (b : bool) (s : AppState) : AppState :=
  {| logs := logs s; warState := warState s; isSimulating := isSimulating s;
     reconImage := reconImage s; isSelectingAlly := b |}.

Definition setReconImage (r : option string) (s : AppState) : AppState :=
  {| logs := logs s; warState := warState s; isSimulating := isSimulating s;
     reconImage := r; isSelectingAlly := isSelectingAlly s |}.

Definition setIsSimulating (b : bool) (s : AppState) : AppState :=
  {| logs := logs s; warState := warState s; isSimulating := b;
     reconImage := reconImage s; isSelectingAlly := isSelectingAlly s |}.

(** [slot?.id === country.id]: an empty slot never matches. *)
Definition slotIs (slot : option CountryFeature) (country : CountryFeature) : bool :=
  match slot with
  | Some c => id_eqb (id c) (id country)
  | None => false
  end.

(** [allies.some(a => a.id === country.id)]. *)
Definition isAllyOf (allies : list CountryFeature) (country : CountryFeature) : bool :=
  existsb (fun a => id_eqb (id a) (id country)) allies.

(** [!slot]. *)
Definition isEmpty (slot : option CountryFeature) : bool :=
  match slot with Some _ => false | None => true end.

Definition handleCountrySelect (country : CountryFeature) (s : AppState) : AppState :=
  let prev := warState s in
  let s' :=
    if isSelectingAlly s then
      (* 1. Ally Selection Mode *)
      if slotIs (aggressor prev) country || slotIs (defender prev) country
         || isAllyOf (defenderAllies prev) country
      then addLog ("Invalid Ally Selection: " ++ name country) WARNING s
      else
        setWarState
          {| aggressor := aggressor prev; defender := defender prev;
             defenderAllies := defenderAllies prev ++ [country] |}
          (setIsSelectingAlly false
             (addLog ("Ally added to coalition: " ++ name country) INFO s))
    (* 2. Standard Selection Logic *)
    else if slotIs (aggressor prev) country then
      setWarState
        {| aggressor := None; defender := defender prev;
           defenderAllies := defenderAllies prev |}
        (addLog ("Faction A (" ++ name country ++ ") deselected.") INFO s)
    else if slotIs (defender prev) country then
      setWarState
        {| aggressor := aggressor prev; defender := None; defenderAllies := [] |}
        (addLog ("Faction B (" ++ name country ++ ") deselected.") INFO s)
    else if isAllyOf (defenderAllies prev) country then
      setWarState
        {| aggressor := aggressor prev; defender := defender prev;
           defenderAllies :=
             filter (fun a => negb (id_eqb (id a) (id country))) (defenderAllies prev) |}
        (addLog ("Ally (" ++ name country ++ ") removed from coalition.") INFO s)
    else if isEmpty (aggressor prev) then
      setWarState
        {| aggressor := Some country; defender := defender prev;
           defenderAllies := defenderAllies prev |}
        (addLog ("Faction A selected: " ++ name country) INFO s)
    else if isEmpty (defender prev) then
      setWarState
        {| aggressor := aggressor prev; defender := Some country;
           defenderAllies := defenderAllies prev |}
        (addLog ("Faction B selected: " ++ name country) INFO s)
    else
      setWarState
        {| aggressor := Some country; defender := None; defenderAllies := [] |}
        (addLog ("Selection reset. Faction A: " ++ name country) INFO s)
  in
  setReconImage None s'.

(** The "+ CALL ALLY" button: rendered only while a defender is set, it
    flips the ally-selection mode. *)
Definition toggleAllyButton (s : AppState) : AppState :=
  if isEmpty (defender (warState s)) then s
  else setIsSelectingAlly (negb (isSelectingAlly s)) s.

(** [triggerWarSimulation] up to its [await]; the button is disabled while
    a simulation runs or a faction is missing. *)
Definition beginWarSimulation (s : AppState) : AppState :=
  match aggressor (warState s), defender (warState s) with
  | Some agg, Some def =>
      if isSimulating s then s
      else
        let nameA := name agg in
        let nameB := name def in
        let allies := map name (defenderAllies (warState s)) in
        addLog "Calculating kinetic outcomes..." INFO
          (addLog ("INITIATING WAR SIMULATION: " ++ nameA ++ " vs " ++ nameB ++ " " ++
                   (if (0 <? List.length allies)%nat
                    then "(+ " ++ showZ (Z.of_nat (List.length allies)) ++ " Allies)"
                    else ""))
                  WARNING (setIsSimulating true s))
  | _, _ => s
  end.

(** [triggerWarSimulation] from the moment the analysis has arrived. *)
Definition endWarSimulation (analysis : string) (s : AppState) : AppState :=
  setIsSimulating false (addLog analysis COMBAT s).

(** [triggerWarSimulation] when nothing else happens while it waits;
    [response] is the answer of the remote model. *)
Definition triggerWarSimulation (response : option string) (s : AppState)
    : Rng.M AppState :=
  match aggressor (warState s), defender (warState s) with
  | Some agg, Some def =>
      if isSimulating s then Rng.ret s
      else
        (analysis <- GeminiService.simulateWarScenario response (name agg) (name def)
                       (map name (defenderAllies (warState s))) ;;
         Rng.ret (endWarSimulation analysis (beginWarSimulation s)))%rng
  | _, _ => Rng.ret s
  end.

(** What happens to the application: clicks on territories, presses of the
    ally button, and the start and the end of a simulation. *)
Inductive Event : Type :=
| Click (country : CountryFeature)
| ToggleAlly
| BeginSimulation
| EndSimulation (analysis : string).

Definition step (s : AppState) (e : Event) : AppState :=
  match e with
  | Click c => handleCountrySelect c s
  | ToggleAlly => toggleAllyButton s
  | BeginSimulation => beginWarSimulation s
  | EndSimulation analysis => endWarSimulation analysis s
  end.

Definition run (s : AppState) (es : list Event) : AppState := fold_left step es s.

(** The identifiers of the three roles. *)
Definition slotIds (slot : option CountryFeature) : list FeatureId :=
  match slot with Some c => [id c] | None => [] end.
Definition aggressorIds (w : WarState) : list FeatureId := slotIds (aggressor w).
Definition defenderIds (w : WarState) : list FeatureId := slotIds (defender w).
Definition allyIds (w : WarState) : list FeatureId := map id (defenderAllies w).

Definition disjoint (l1 l2 : list FeatureId) : Prop :=
  forall i, In i l1 -> In i l2 -> False.

(** No identifier in two roles. *)
Definition rolesDisjoint (w : WarState) : Prop :=
  disjoint (aggressorIds w) (defenderIds w)
  /\ disjoint (aggressorIds w) (allyIds w)
  /\ disjoint (defenderIds w) (allyIds w).

End App.

(** ** components/HoloGlobe.tsx: the state the render loop and the pointer
    handlers update.  Drawing on the canvas leaves the state alone and is not
    modelled. *)

Module HoloGlobe.
Import Types Rng.Notations.

(** A screen position, [[x, y]] or [{x, y}]. *)
Definition Point : Type := (Q * Q)%type.

(** A rotation, [[spin, tilt]] in degrees. *)
Definition Rotation : Type := (Q * Q)%type.

Record Particle : Type := mkParticle {
  x : Q;
  y : Q;
  vx : Q;
  vy : Q;
  life : Q;
  maxLife : Q;
  size : Q;
  color : string
}.

Record Missile : Type := mkMissile {
  t : Q;            (* progress *)
  speed : Q;
  offset : Q;
  id : nat;
  pathIndex : nat
}.

Inductive PathType : Type := AGGRESSION | COUNTER_ATTACK.

(** [ConflictPath]; [end] and a second [color] are not available as field
    names, hence [end_], [pathColor] and [pathType]. *)
Record ConflictPath : Type := mkPath {
  start : LngLat;
  end_ : LngLat;
  pathColor : string;
  pathType : PathType
}.

(** The d3 routines the component calls.  The projection is the orthographic
    one of the component, under the rotation last given to
    [projection.rotate]; it yields nothing for a clipped point. *)
Class D3 : Type := {
  geoCentroid : CountryFeature -> LngLat;
  geoContains : CountryFeature -> LngLat -> bool;
  geoInterpolate : LngLat -> LngLat -> Q -> LngLat;
  projection : Rotation -> LngLat -> option Point;
  projectionInvert : Rotation -> Point -> option LngLat
}.

(** The canvas: its layout size, the device pixel ratio and its bounding
    client rectangle. *)
Record Canvas : Type := mkCanvas {
  width : Q;
  height : Q;
  dpr : Q;
  rectLeft : Q;
  rectTop : Q;
  rectWidth : Q;
  rectHeight : Q
}.

(** The refs and the variables of the effect's closure. *)
Record Globe : Type := mkGlobe {
  rotationRef : Rotation;
  velocityRef : Q * Q;
  isDraggingRef : bool;
  lastMouseRef : Point;
  startDragRef : Point;
  projected : Rotation;       (* the rotation of [projection] *)
  particles : list Particle;
  missiles : list Missile;
  lastTime : Z                (* milliseconds *)
}.

(** The tilt (latitude) component of the rotation. *)
Definition tilt (g : Globe) : Q := snd (rotationRef g).

(** [initMissiles]: a pool of 20, seeded from [Math.random]. *)
Fixpoint seedMissiles (n : nat) (i : nat) : Rng.M (list Missile) :=
  match n with
  | O => Rng.ret []
  | S n' =>
      (r0 <- Rng.random ;;
       r1 <- Rng.random ;;
       r2 <- Rng.random ;;
       rest <- seedMissiles n' (S i) ;;
       Rng.ret ({| t := r0; speed := 0.2 + r1 * 0.2; offset := r2;
                   id := i; pathIndex := O |} :: rest))%rng
  end.

Definition initMissiles : Rng.M (list Missile) := seedMissiles 20 0.

(** The state when the effect starts at time [now]. *)
Definition initial (now : Z) : Rng.M Globe :=
  (ms <- initMissiles ;;
   Rng.ret {| rotationRef := (0, -20); velocityRef := (0.02, 0);
              isDraggingRef := false; lastMouseRef := (0, 0);
              startDragRef := (0, 0); projected := (0, -20);
              particles := []; missiles := ms; lastTime := now |})%rng.

(** *** The frame: rotation and inertia *)

Definition physics (g : Globe) : Globe :=
  if isDraggingRef g then g
  else
    (* Apply friction to velocity *)
    let v0 := fst (velocityRef g) * 0.92 in
    let v1 := snd (velocityRef g) * 0.92 in
    (* Minimum auto-rotation *)
    let v0' := if Num.ltb (Num.abs v0) 0.05 then v0 * 0.9 + 0.05 * 0.1 else v0 in
    let r0 := fst (rotationRef g) + v0' in
    let r1 := snd (rotationRef g) + v1 in
    (* Clamp Y rotation *)
    let r1' := Num.max (-45) (Num.min 45 r1) in
    {| rotationRef := (r0, r1'); velocityRef := (v0', v1);
       isDraggingRef := isDraggingRef g; lastMouseRef := lastMouseRef g;
       startDragRef := startDragRef g; projected := projected g;
       particles := particles g; missiles := missiles g;
       lastTime := lastTime g |}.

(** *** The frame: conflict paths *)

Section Renderer.
Context {d3 : D3}.
Variable canvas : Canvas.
Variable features : list CountryFeature.   (* worldData.features *)

(** The paths of a frame in which both factions are set. *)
Definition conflictPaths (agg def : CountryFeature) (allies : list CountryFeature)
    : list ConflictPath :=
  let centerAggressor := geoCentroid agg in
  let centerDefender := geoCentroid def in
  {| start := centerAggressor; end_ := centerDefender;
     pathColor := "#f97316"; pathType := AGGRESSION |}
  :: map (fun ally =>
            {| start := geoCentroid ally; end_ := centerAggressor;
               pathColor := "#22d3ee"; pathType := COUNTER_ATTACK |}) allies.

(** The guard of the war layer and the path list of the frame: nothing
    unless both factions are set and a simulation runs. *)
Definition framePaths (w : WarState) (isSimulating : bool) : option (list ConflictPath) :=
  match aggressor w, defender w with
  | Some agg, Some def =>
      if isSimulating then Some (conflictPaths agg def (defenderAllies w)) else None
  | _, _ => None
  end.

(** *** The frame: missiles *)

(** [m.t += m.speed * dt]. *)
Definition advance (dt : Q) (m : Missile) : Missile :=
  {| t := t m + speed m * dt; speed := speed m; offset := offset m;
     id := id m; pathIndex := pathIndex m |}.

(** [(m.t + m.offset) % 1.5]. *)
Definition cycleT (m : Missile) : Q := Num.rem (t m + offset m) 1.5.

(** The body of [missiles.forEach]: the missile after its update and the
    particle it may have pushed. *)
Definition updateMissile (dt : Q) (rot : Rotation) (paths : list ConflictPath)
    (idx : nat) (m : Missile) (ps : list Particle) : Rng.M (Missile * list Particle) :=
  let m' := advance dt m in
  match nth_error paths (idx mod List.length paths) with
  | None => Rng.ret (m', ps)
  | Some p =>
      let interpolator := geoInterpolate (start p) (end_ p) in
      let c := cycleT m' in
      if Num.leb c 1 then
        let projectedPos := projection rot (interpolator c) in
        let nextT := Num.min 1 (c + 0.01) in
        let nextProjected := projection rot (interpolator nextT) in
        match projectedPos, nextProjected with
        | Some pp, Some _ =>
            let cx := width canvas / 2 in
            let cy := height canvas / 2 in
            if Num.sqrt_ltb (Num.sq (fst pp - cx) + Num.sq (snd pp - cy))
                            (height canvas / 2.2)
            then
              if Num.ltb 0.95 c then
                (r <- Rng.random ;;
                 if Num.ltb r 0.3 then
                   match projection rot (end_ p) with
                   | Some destPos =>
                       rvx <- Rng.random ;;
                       rvy <- Rng.random ;;
                       rsize <- Rng.random ;;
                       Rng.ret (m', (ps ++ [ {| x := fst destPos; y := snd destPos;
                                               vx := (rvx - 0.5) * 20;
                                               vy := (rvy - 0.5) * 20;
                                               life := 1; maxLife := 1;
                                               size := rsize * 10 + 5;
                                               color := pathColor p |} ])%list)
                   | None => Rng.ret (m', ps)
                   end
                 else Rng.ret (m', ps))%rng
              else Rng.ret (m', ps)
            else Rng.ret (m', ps)
        | _, _ => Rng.ret (m', ps)
        end
      else Rng.ret (m', ps)
  end.

(** [missiles.forEach((m, idx) => ...)], from index [idx] on. *)
Fixpoint updateMissiles (dt : Q) (rot : Rotation) (paths : list ConflictPath)
    (idx : nat) (ms : list Missile) (ps : list Particle)
    : Rng.M (list Missile * list Particle) :=
  match ms with
  | [] => Rng.ret ([], ps)
  | m :: rest =>
      (mp <- updateMissile dt rot paths idx m ps ;;
       rp <- updateMissiles dt rot paths (S idx) rest (snd mp) ;;
       Rng.ret (fst mp :: fst rp, snd rp))%rng
  end.

(** *** The frame: particles *)

(** The update of one particle: decay and drift. *)
Definition decay (dt : Q) (p : Particle) : Particle :=
  {| x := x p + vx p * dt; y := y p + vy p * dt; vx := vx p; vy := vy p;
     life := life p - dt * 1.5; maxLife := maxLife p; size := size p;
     color := color p |}.

(** [particles.splice(i, 1)]. *)
Fixpoint splice1 (i : nat) (ps : list Particle) : list Particle :=
  match i, ps with
  | _, [] => []
  | O, _ :: rest => rest
  | S i', p :: rest => p :: splice1 i' rest
  end.

(** [particles[i] = p]. *)
Fixpoint store (i : nat) (p : Particle) (ps : list Particle) : list Particle :=
  match i, ps with
  | _, [] => []
  | O, _ :: rest => p :: rest
  | S i', q :: rest => q :: store i' p rest
  end.

(** [for (let i = n - 1; i >= 0; i--)]: the iterations for the indices
    below [n], from the highest down. *)
Fixpoint particleLoop (dt : Q) (n : nat) (ps : list Particle) : list Particle :=
  match n with
  | O => ps
  | S i =>
      match nth_error ps i with
      | None => particleLoop dt i ps
      | Some p =>
          let p' := decay dt p in
          if Num.leb (life p') 0
          then particleLoop dt i (splice1 i ps)
          else particleLoop dt i (store i p' ps)
      end
  end.

Definition updateParticles (dt : Q) (ps : list Particle) : list Particle :=
  particleLoop dt (List.length ps) ps.

(** A particle stays in the list when its life is still positive. *)
Definition alive (p : Particle) : bool := negb (Num.leb (life p) 0).

(** What one pass of the loop amounts to: every particle decays, the dead
    ones are dropped (lemma [updateParticles_sweep]). *)
Definition sweep (dt : Q) (ps : list Particle) : list Particle :=
  filter alive (map (decay dt) ps).

(** The number of frames a fresh particle is expected to live,
    [ceil (1 / (r * dt))] with the decay rate [r = 1.5]. *)
Definition lifetime (dt : Q) : nat := Z.to_nat (Qceiling (1 / (1.5 * dt))).

(** *** The frame *)

(** [Math.min((now - lastTime) / 1000, 0.1)]. *)
Definition frameDt (now : Z) (g : Globe) : Q :=
  Num.min (inject_Z (now - lastTime g) / 1000) 0.1.

Definition render (now : Z) (w : WarState) (isSimulating : bool) (g : Globe)
    : Rng.M Globe :=
  let dt := frameDt now g in
  let g1 := physics g in
  let rot := rotationRef g1 in
  match framePaths w isSimulating with
  | Some paths =>
      (mp <- updateMissiles dt rot paths 0 (missiles g1) (particles g1) ;;
       Rng.ret {| rotationRef := rot; velocityRef := velocityRef g1;
                  isDraggingRef := isDraggingRef g1; lastMouseRef := lastMouseRef g1;
                  startDragRef := startDragRef g1; projected := rot;
                  particles := updateParticles dt (snd mp); missiles := fst mp;
                  lastTime := now |})%rng
  | None =>
      Rng.ret {| rotationRef := rot; velocityRef := velocityRef g1;
                 isDraggingRef := isDraggingRef g1; lastMouseRef := lastMouseRef g1;
                 startDragRef := startDragRef g1; projected := rot;
                 particles := particles g1; missiles := missiles g1;
                 lastTime := now |}
  end.

(** *** Pointer handlers *)

Definition handleMouseDown (e : Point) (g : Globe) : Globe :=
  {| rotationRef := rotationRef g; velocityRef := (0, 0);
     isDraggingRef := true; lastMouseRef := e; startDragRef := e;
     projected := projected g; particles := particles g;
     missiles := missiles g; lastTime := lastTime g |}.

Definition handleMouseMove (e : Point) (g : Globe) : Globe :=
  if isDraggingRef g then
    let dx := fst e - fst (lastMouseRef g) in
    let dy := snd e - snd (lastMouseRef g) in
    {| rotationRef := (fst (rotationRef g) + dx * 0.5, snd (rotationRef g) - dy * 0.5);
       velocityRef := (dx * 0.5, - dy * 0.5);
       isDraggingRef := true; lastMouseRef := e; startDragRef := startDragRef g;
       projected := projected g; particles := particles g;
       missiles := missiles g; lastTime := lastTime g |}
  else g.

(** The square of the pixel distance between pointer-down and pointer-up. *)
Definition dragDist2 (e : Point) (g : Globe) : Q :=
  Num.sq (fst e - fst (startDragRef g)) + Num.sq (snd e - snd (startDragRef g)).

(** [dist], the pixel distance itself: the real square root. *)
Definition dragDist (e : Point) (g : Globe) : R := sqrt (Q2R (dragDist2 e g)).

(** Click detection, [dist < 15]. *)
Definition isClick (e : Point) (g : Globe) : bool := Num.sqrt_ltb (dragDist2 e g) 15.

(** What an assignment to [canvas.width] or [canvas.height] leaves in the
    attribute, an unsigned long: the fraction of the number is dropped and the
    rest taken modulo [2 ^ 32]; a value beyond 2147483647 gives the default
    of the attribute. *)
Definition setDimension (default : Z) (v : Q) : Z :=
  let n := (Num.trunc v mod 2 ^ 32)%Z in
  if (n <=? 2147483647)%Z then n else default.

(** [canvas.width] and [canvas.height] after [canvas.width = width * dpr]
    and [canvas.height = height * dpr]. *)
Definition canvasWidth : Z := setDimension 300 (width canvas * dpr canvas).
Definition canvasHeight : Z := setDimension 150 (height canvas * dpr canvas).

(** The canvas position of a pointer event. *)
Definition canvasPoint (e : Point) : Point :=
  let scaleX := inject_Z canvasWidth / rectWidth canvas in
  let scaleY := inject_Z canvasHeight / rectHeight canvas in
  ((fst e - rectLeft canvas) * scaleX / dpr canvas,
   (snd e - rectTop canvas) * scaleY / dpr canvas).

(** [worldData.features.find(feature => d3.geoContains(feature, inverted))]. *)
Definition hitTest (inverted : LngLat) : option CountryFeature :=
  find (fun feature => geoContains feature inverted) features.

(** [handleMouseUp]: the state after it, and the territory it passes to
    [onCountrySelect], if it calls it. *)
Definition handleMouseUp (e : Point) (g : Globe) : Globe * option CountryFeature :=
  if isDraggingRef g then
    let g' := {| rotationRef := rotationRef g; velocityRef := velocityRef g;
                 isDraggingRef := false; lastMouseRef := lastMouseRef g;
                 startDragRef := startDragRef g; projected := projected g;
                 particles := particles g; missiles := missiles g;
                 lastTime := lastTime g |} in
    if isClick e g then
      match projectionInvert (projected g) (canvasPoint e) with
      | Some inverted => (g', hitTest inverted)
      | None => (g', None)
      end
    else (g', None)
  else (g, None).

(** *** The component in the application *)

Record System : Type := mkSystem {
  app : App.AppState;
  globe : Globe
}.

Inductive Input : Type :=
| MouseDown (e : Point)
| MouseMove (e : Point)
| MouseUp (e : Point)
| Frame (now : Z).

Definition withGlobe (s : System) (g : Globe) : System :=
  {| app := app s; globe := g |}.

(** Pointer-up with [onCountrySelect = handleCountrySelect]. *)
Definition mouseUp (e : Point) (s : System) : System :=
  let (g', hit) := handleMouseUp e (globe s) in
  match hit with
  | Some country => {| app := App.handleCountrySelect country (app s); globe := g' |}
  | None => {| app := app s; globe := g' |}
  end.

Definition frame (now : Z) (s : System) : Rng.M System :=
  (g' <- render now (App.warState (app s)) (App.isSimulating (app s)) (globe s) ;;
   Rng.ret (withGlobe s g'))%rng.

(** The effect when the world data has arrived at time [now]: the missile
    pool is seeded and the first frame is rendered at once. *)
Definition mount (now : Z) (a : App.AppState) : Rng.M System :=
  (g <- initial now ;;
   frame now {| app := a; globe := g |})%rng.

Definition stepInput (i : Input) (s : System) : Rng.M System :=
  match i with
  | MouseDown e => Rng.ret (withGlobe s (handleMouseDown e (globe s)))
  | MouseMove e => Rng.ret (withGlobe s (handleMouseMove e (globe s)))
  | MouseUp e => Rng.ret (mouseUp e s)
  | Frame now => frame now s
  end.

Fixpoint runInputs (inputs : list Input) (s : System) : Rng.M System :=
  match inputs with
  | [] => Rng.ret s
  | i :: rest => (s' <- stepInput i s ;; runInputs rest s')%rng
  end.

End Renderer.

End HoloGlobe.

(** ** Sample data

    Three territories, a canvas and a flat stand-in for the d3 routines, to
    run the definitions on concrete inputs. *)

Module Sample.
Import Types.

Definition box (w s e n : Q) : Geometry := Polygon [[(w, s); (e, s); (e, n); (w, n); (w, s)]].

Definition brazil : CountryFeature :=
  {| id := IdStr "076"; name := "Brazil"; geometry := box (-70) (-30) (-40) 0 |}.
Definition chile : CountryFeature :=
  {| id := IdStr "152"; name := "Chile"; geometry := box (-75) (-55) (-68) (-18) |}.
Definition peru : CountryFeature :=
  {| id := IdStr "604"; name := "Peru"; geometry := box (-80) (-18) (-69) 0 |}.

Definition features : list CountryFeature := [brazil; chile; peru].

Definition vertices (g : Geometry) : list LngLat :=
  match g with
  | Polygon rings => List.concat rings
  | MultiPolygon polygons => List.concat (List.concat polygons)
  end.

(** Containment in the bounding box of the vertices. *)
Definition inBox (f : CountryFeature) (p : LngLat) : bool :=
  let vs := vertices (geometry f) in
  existsb (fun v => Num.leb (fst v) (fst p)) vs && existsb (fun v => Num.leb (fst p) (fst v)) vs
  && existsb (fun v => Num.leb (snd v) (snd p)) vs && existsb (fun v => Num.leb (snd p) (snd v)) vs.

(** The first vertex stands for the centroid. *)
Definition firstVertex (f : CountryFeature) : LngLat :=
  match vertices (geometry f) with
  | v :: _ => v
  | [] => (0, 0)
  end.

Definition lerp (a b : LngLat) (u : Q) : LngLat :=
  (fst a + (fst b - fst a) * u, snd a + (snd b - snd a) * u).

#[export] Instance flat : HoloGlobe.D3 := {|
  HoloGlobe.geoCentroid := firstVertex;
  HoloGlobe.geoContains := inBox;
  HoloGlobe.geoInterpolate := lerp;
  HoloGlobe.projection :=
    fun rot p => Some (400 + (fst p + fst rot), 300 - (snd p + snd rot));
  HoloGlobe.projectionInvert :=
    fun rot q => Some (fst q - 400 - fst rot, 300 - snd q - snd rot)
|}.

Definition canvas : HoloGlobe.Canvas :=
  {| HoloGlobe.width := 800; HoloGlobe.height := 600; HoloGlobe.dpr := 2;
     HoloGlobe.rectLeft := 0; HoloGlobe.rectTop := 0;
     HoloGlobe.rectWidth := 800; HoloGlobe.rectHeight := 600 |}.

(** Every draw of [Math.random] is one half. *)
Definition halves : Rng.Stream := fun _ => 1 # 2.

(** The application and the globe right after start-up at time 0. *)
Definition system0 : HoloGlobe.System :=
  Rng.eval (HoloGlobe.mount canvas 0 (App.initial [])) halves.

(** The pointer is down at (328, 338), over Chile and Peru. *)
Definition pressed : HoloGlobe.System :=
  HoloGlobe.withGlobe system0 (HoloGlobe.handleMouseDown (328, 338) (HoloGlobe.globe system0)).

(** The pointer is down at (400, 300), over the ocean. *)
Definition pressedOcean : HoloGlobe.System :=
  HoloGlobe.withGlobe system0 (HoloGlobe.handleMouseDown (400, 300) (HoloGlobe.globe system0)).

(** A missile of the pool. *)
Definition jet : HoloGlobe.Missile :=
  {| HoloGlobe.t := 0.5; HoloGlobe.speed := 0.3; HoloGlobe.offset := 0.25;
     HoloGlobe.id := 3; HoloGlobe.pathIndex := 0 |}.

(** A particle as the missile loop pushes it. *)
Definition spark : HoloGlobe.Particle :=
  {| HoloGlobe.x := 330; HoloGlobe.y := 270; HoloGlobe.vx := 4; HoloGlobe.vy := -6;
     HoloGlobe.life := 1; HoloGlobe.maxLife := 1; HoloGlobe.size := 10;
     HoloGlobe.color := "#f97316" |}.

(** Brazil attacks Chile, Peru has joined Chile. *)
Definition coalition : App.AppState :=
  App.run (App.initial [])
    [App.Click brazil; App.Click chile; App.ToggleAlly; App.Click peru].

(** Every draw of [Math.random] is nine tenths: the pool is seeded with
    progress 0.9, speed 0.38 and offset 0.9. *)
Definition highs : Rng.Stream := fun _ => 9 # 10.

(** The coalition once the simulation has been started, with the globe as it
    is after a start-up under [highs]. *)
Definition battle : HoloGlobe.System :=
  {| HoloGlobe.app := App.step coalition App.BeginSimulation;
     HoloGlobe.globe :=
       HoloGlobe.globe (Rng.eval (HoloGlobe.mount canvas 0 (App.initial [])) highs) |}.

(** The pointer goes down and stays down for sixteen frames, 100 ms apart. *)
Definition sixteenFrames : list HoloGlobe.Input :=
  HoloGlobe.MouseDown (400, 300)
  :: map (fun k => HoloGlobe.Frame (100 * Z.of_nat k)) (seq 1 16).

End Sample.

(** ** components/HudWidgets.tsx: the figures behind the charts *)

Module HudWidgets.
Import Str Types Rng.Notations.

Record CountryStats : Type := mkStats {
  infantry : Z;
  armor : Z;
  air : Z;
  cyber : Z;
  logistics : Z;
  intel : Z;
  manpower : Z;
  techLevel : Z
}.

(** [getCountryStats]; its hashing loop is the one of [getPowerScore]. *)
Definition getCountryStats (name : string) : CountryStats :=
  let h := GeminiService.hashFrom 0 name in
  let seed := Z.abs h in
  {| infantry := 40 + Num.remz seed 60;
     armor := 40 + Num.remz (Num.sar seed 2) 60;
     air := 40 + Num.remz (Num.sar seed 4) 60;
     cyber := 40 + Num.remz (Num.sar seed 6) 60;
     logistics := 40 + Num.remz (Num.sar seed 8) 60;
     intel := 40 + Num.remz (Num.sar seed 10) 60;
     manpower := 50000 + Num.remz seed 500000;
     techLevel := 1 + Num.remz seed 10 |}%Z.

(** [slot ? getCountryStats(slot.properties.name) : null]. *)
Definition statsOf (slot : option CountryFeature) : option CountryStats :=
  match slot with
  | Some c => Some (getCountryStats (name c))
  | None => None
  end.

(** [stats?.field || 0]. *)
Definition orZero (field : CountryStats -> Z) (stats : option CountryStats) : Z :=
  match stats with
  | Some st => if (field st =? 0)%Z then 0%Z else field st
  | None => 0%Z
  end.

Record RadarRow : Type := mkRow {
  subject : string;
  A : Z;
  B : Z;
  fullMark : Z
}.

(** The [data] of [TacticalRadar]. *)
Definition radarData (w : WarState) : list RadarRow :=
  let statsA := statsOf (aggressor w) in
  let statsB := statsOf (defender w) in
  [ {| subject := "INFANTRY"; A := orZero infantry statsA; B := orZero infantry statsB;
       fullMark := 100 |};
    {| subject := "ARMOR"; A := orZero armor statsA; B := orZero armor statsB;
       fullMark := 100 |};
    {| subject := "AIR FORCE"; A := orZero air statsA; B := orZero air statsB;
       fullMark := 100 |};
    {| subject := "CYBER"; A := orZero cyber statsA; B := orZero cyber statsB;
       fullMark := 100 |};
    {| subject := "LOGISTICS"; A := orZero logistics statsA; B := orZero logistics statsB;
       fullMark := 100 |};
    {| subject := "INTEL"; A := orZero intel statsA; B := orZero intel statsB;
       fullMark := 100 |} ].

(** [WarStats]: the relative power. *)
Definition powerOf (stats : option CountryStats) : Z :=
  match stats with
  | Some st => (infantry st + armor st + air st + techLevel st * 10)%Z
  | None => 0%Z
  end.

Definition powerA (w : WarState) : Z := powerOf (statsOf (aggressor w)).
Definition powerB (w : WarState) : Z := powerOf (statsOf (defender w)).

(** [totalPower > 0 ? (powerA / totalPower) * 100 : 50]. *)
Definition percentA (w : WarState) : Q :=
  let totalPower := (powerA w + powerB w)%Z in
  if (0 <? totalPower)%Z
  then inject_Z (powerA w) / inject_Z totalPower * 100
  else 50.

Record Bar : Type := mkBar {
  barName : string;     (* name *)
  value : Z
}.

(** [Array.from({length: n}, (_, i) => ...)] of [IntensityChart], from
    index [i] on. *)
Fixpoint noiseFrom (n : nat) (i : nat) : Rng.M (list Bar) :=
  match n with
  | O => Rng.ret []
  | S n' =>
      (r <- Rng.random ;;
       rest <- noiseFrom n' (S i) ;;
       Rng.ret ({| barName := showZ (Z.of_nat i); value := Qfloor (r * 50) + 20 |} :: rest))%rng
  end.

(** The [data] of [IntensityChart]. *)
Definition intensityData : Rng.M (list Bar) := noiseFrom 20 0.

End HudWidgets.

(** ** More sample data *)

Module Sample2.

(** A name whose hash is the least 32-bit integer. *)
Definition extreme : string := "polygenelubricants".

(** Draws that stay within the range of [Math.random]. *)
Definition thirds : Rng.Stream := fun n => if Nat.even n then 1 # 3 else 2 # 3.

(** Draws that are low enough for the missile loop to push particles. *)
Definition lows : Rng.Stream := fun _ => 1 # 10.

End Sample2.

(** ** Predicates used to state invariants *)

Module Facts.
Import Types.

(** No two allies with the same identifier. *)
Definition alliesDistinct (s : App.AppState) : Prop :=
  NoDup (App.allyIds (App.warState s)).

(** Allies and the ally-selection mode only exist beside a defender. *)
Definition coalitionBacked (s : App.AppState) : Prop :=
  match defender (App.warState s) with
  | Some _ => True
  | None => defenderAllies (App.warState s) = [] /\ App.isSelectingAlly s = false
  end.


(** A particle as the missile loop pushes it for one of the paths. *)
Definition fresh (paths : list HoloGlobe.ConflictPath) (p : HoloGlobe.Particle) : Prop :=
  HoloGlobe.life p = 1 /\ HoloGlobe.maxLife p = 1
  /\ In (HoloGlobe.color p) (map HoloGlobe.pathColor paths).

(** What a frame never changes of a missile. *)
Definition key (m : HoloGlobe.Missile) : nat * Q * Q :=
  (HoloGlobe.id m, HoloGlobe.speed m, HoloGlobe.offset m).


End Facts.

(** * Properties *)

Local Open Scope list_scope.

(** ** Numbers *)

Lemma ltb_lt (x y : Q) : Num.ltb x y = true <-> x < y.
Proof.
  unfold Num.ltb. rewrite negb_true_iff, <- not_true_iff_false, Qle_bool_iff.
  split; [apply Qnot_le_lt | apply Qlt_not_le].
Qed.

Lemma ltb_ge (x y : Q) : Num.ltb x y = false <-> y <= x.
Proof.
  unfold Num.ltb. rewrite negb_false_iff. apply Qle_bool_iff.
Qed.

Lemma leb_le (x y : Q) : Num.leb x y = true <-> x <= y.
Proof. apply Qle_bool_iff. Qed.

Lemma leb_gt (x y : Q) : Num.leb x y = false <-> y < x.
Proof.
  unfold Num.leb. rewrite <- not_true_iff_false, Qle_bool_iff.
  split; [apply Qnot_le_lt | apply Qlt_not_le].
Qed.

Lemma sq_nonneg (a : Q) : 0 <= Num.sq a.
Proof. unfold Num.sq. destruct (Qlt_le_dec a 0); nra. Qed.

Lemma clamp_between (lo hi r : Q) :
  lo <= hi -> lo <= Num.max lo (Num.min hi r) /\ Num.max lo (Num.min hi r) <= hi.
Proof.
  intros Hlh. unfold Num.max, Num.min.
  destruct (Qle_bool hi r) eqn:E1.
  - rewrite (proj2 (Qle_bool_iff lo hi) Hlh). split; [exact Hlh | apply Qle_refl].
  - destruct (Qle_bool lo r) eqn:E2.
    + apply Qle_bool_iff in E2. apply leb_gt in E1.
      split; [exact E2 | apply Qlt_le_weak, E1].
    + split; [apply Qle_refl | exact Hlh].
Qed.

(** ** The selection handler *)

Section Selection.
Import Types App.

Lemma id_eqb_eq (a b : FeatureId) : id_eqb a b = true <-> a = b.
Proof.
  destruct a as [s | n], b as [s' | n']; simpl; split; intros H;
    try discriminate; try (inversion H; subst).
  - apply String.eqb_eq in H. now subst.
  - apply String.eqb_refl.
  - apply Z.eqb_eq in H. now subst.
  - apply Z.eqb_refl.
Qed.

Lemma slotIs_true (slot : option CountryFeature) (c : CountryFeature) :
  slotIs slot c = true <-> In (id c) (slotIds slot).
Proof.
  destruct slot as [a |]; simpl.
  - rewrite id_eqb_eq. split; [intros ->; now left | intros [H | []]; exact H].
  - split; [discriminate | contradiction].
Qed.

Lemma slotIs_false (slot : option CountryFeature) (c : CountryFeature) :
  slotIs slot c = false <-> ~ In (id c) (slotIds slot).
Proof.
  rewrite <- slotIs_true. destruct (slotIs slot c); split; congruence.
Qed.

Lemma isAllyOf_true (allies : list CountryFeature) (c : CountryFeature) :
  isAllyOf allies c = true <-> In (id c) (map id allies).
Proof.
  unfold isAllyOf. rewrite existsb_exists, in_map_iff.
  split; intros [a [H1 H2]]; exists a.
  - apply id_eqb_eq in H2. split; [exact H2 | exact H1].
  - split; [exact H2 | apply id_eqb_eq; exact H1].
Qed.

Lemma isAllyOf_false (allies : list CountryFeature) (c : CountryFeature) :
  isAllyOf allies c = false <-> ~ In (id c) (map id allies).
Proof.
  rewrite <- isAllyOf_true. destruct (isAllyOf allies c); split; congruence.
Qed.

Lemma in_ids_filter (c : CountryFeature) (allies : list CountryFeature) (i : FeatureId) :
  In i (map id (filter (fun a => negb (id_eqb (id a) (id c))) allies)) ->
  In i (map id allies) /\ i <> id c.
Proof.
  rewrite !in_map_iff. intros [a [<- Ha]]. apply filter_In in Ha.
  destruct Ha as [Ha Hne]. split.
  - exists a. split; [reflexivity | exact Ha].
  - intros Heq. apply id_eqb_eq in Heq. rewrite Heq in Hne. discriminate.
Qed.

(** Every branch of the handler keeps the three roles apart. *)
Lemma handleCountrySelect_disjoint (c : CountryFeature) (s : AppState) :
  rolesDisjoint (warState s) -> rolesDisjoint (warState (handleCountrySelect c s)).
Proof.
  unfold rolesDisjoint, disjoint, aggressorIds, defenderIds, allyIds.
  intros (Had & Haa & Hda).
  unfold handleCountrySelect.
  destruct (isSelectingAlly s).
  - destruct (slotIs (aggressor (warState s)) c) eqn:Ea; simpl; [now repeat split |].
    destruct (slotIs (defender (warState s)) c) eqn:Ed; simpl; [now repeat split |].
    destruct (isAllyOf (defenderAllies (warState s)) c) eqn:El; simpl; [now repeat split |].
    apply slotIs_false in Ea, Ed.
    repeat split; try assumption; intros i Hi Hin;
      rewrite map_app in Hin; apply in_app_or in Hin;
      (destruct Hin as [Hin | [<- | []]]; [eauto | contradiction]).
  - destruct (slotIs (aggressor (warState s)) c) eqn:Ea; simpl.
    { repeat split; try assumption; intros i []. }
    destruct (slotIs (defender (warState s)) c) eqn:Ed; simpl.
    { repeat split; try assumption; intros i; try contradiction; intros _ []. }
    destruct (isAllyOf (defenderAllies (warState s)) c) eqn:El; simpl.
    { repeat split; try assumption; intros i Hi Hin;
        apply in_ids_filter in Hin; destruct Hin; eauto. }
    apply slotIs_false in Ea, Ed. apply isAllyOf_false in El.
    destruct (aggressor (warState s)) as [a |] eqn:Eagg; simpl.
    + destruct (defender (warState s)) as [d |] eqn:Edef; simpl.
      * repeat split; intros i; try contradiction; intros _ [].
      * repeat split; try assumption.
        -- intros i [<- | []] [Hi | []]. apply Ea. simpl. now left.
        -- intros i [<- | []] Hin. contradiction.
    + repeat split.
      * intros i [<- | []] Hin. contradiction.
      * intros i [<- | []] Hin. contradiction.
      * assumption.
Qed.

Lemma toggleAllyButton_warState (s : AppState) :
  warState (toggleAllyButton s) = warState s.
Proof.
  unfold toggleAllyButton. now destruct (isEmpty (defender (warState s))).
Qed.

Lemma beginWarSimulation_warState (s : AppState) :
  warState (beginWarSimulation s) = warState s.
Proof.
  unfold beginWarSimulation.
  destruct (aggressor (warState s)), (defender (warState s)), (isSimulating s);
    reflexivity.
Qed.

Lemma step_disjoint (s : AppState) (e : Event) :
  rolesDisjoint (warState s) -> rolesDisjoint (warState (step s e)).
Proof.
  destruct e as [c | | | analysis]; simpl.
  - apply handleCountrySelect_disjoint.
  - now rewrite toggleAllyButton_warState.
  - now rewrite beginWarSimulation_warState.
  - trivial.
Qed.

Lemma run_disjoint (es : list Event) :
  forall s, rolesDisjoint (warState s) -> rolesDisjoint (warState (run s es)).
Proof.
  induction es as [| e es IH]; intros s Hs; simpl.
  - exact Hs.
  - apply IH, step_disjoint, Hs.
Qed.

Lemma initial_disjoint (logs0 : list SystemLog) :
  rolesDisjoint (warState (initial logs0)).
Proof.
  repeat split; intros i [].
Qed.

(** C1. Selection exclusivity: whatever clicks on territories, presses of
    the ally button and simulation runs are processed from the initial empty
    selection, no territory identifier is in two of the roles aggressor,
    defender and defender ally. *)
Theorem selection_roles_exclusive (logs0 : list SystemLog) (es : list Event) :
  rolesDisjoint (warState (run (initial logs0) es)).
Proof.
  apply run_disjoint, initial_disjoint.
Qed.

End Selection.

Section Toggles.
Import Types App.

(** C8. With ally selection off, a click on the territory that is the
    current aggressor empties the aggressor slot and leaves the defender and
    the allies as they are; so from a selection without aggressor, two clicks
    in a row on a territory that is neither defender nor ally first make it
    the aggressor and then empty the slot again. *)
Theorem aggressor_click_toggles (a : CountryFeature) (s : AppState) :
  isSelectingAlly s = false ->
  (slotIs (aggressor (warState s)) a = true ->
   warState (handleCountrySelect a s) =
   {| aggressor := None; defender := defender (warState s);
      defenderAllies := defenderAllies (warState s) |})
  /\ (aggressor (warState s) = None ->
      slotIs (defender (warState s)) a = false ->
      isAllyOf (defenderAllies (warState s)) a = false ->
      aggressor (warState (handleCountrySelect a s)) = Some a
      /\ aggressor (warState (handleCountrySelect a (handleCountrySelect a s))) = None).
Proof.
  intros Hmode. split.
  - intros Ha. unfold handleCountrySelect. rewrite Hmode, Ha. reflexivity.
  - intros Hnone Hd Hl.
    assert (H1 : warState (handleCountrySelect a s) =
                 {| aggressor := Some a; defender := defender (warState s);
                    defenderAllies := defenderAllies (warState s) |}).
    { unfold handleCountrySelect. rewrite Hmode, Hnone, Hd, Hl. reflexivity. }
    assert (Hmode1 : isSelectingAlly (handleCountrySelect a s) = false).
    { unfold handleCountrySelect. rewrite Hmode, Hnone, Hd, Hl. exact Hmode. }
    split.
    + now rewrite H1.
    + unfold handleCountrySelect at 1. rewrite Hmode1, H1. simpl.
      rewrite (proj2 (id_eqb_eq (id a) (id a)) eq_refl). reflexivity.
Qed.

Lemma aggressor_click_toggles_witness :
  warState (handleCountrySelect Sample.brazil Sample.coalition) =
  {| aggressor := None; defender := Some Sample.chile; defenderAllies := [Sample.peru] |}
  /\ aggressor (warState (handleCountrySelect Sample.brazil (App.initial []))) = Some Sample.brazil
  /\ aggressor (warState (handleCountrySelect Sample.brazil
                            (handleCountrySelect Sample.brazil (App.initial [])))) = None.
Proof.
  split.
  - apply (aggressor_click_toggles Sample.brazil Sample.coalition); reflexivity.
  - apply (aggressor_click_toggles Sample.brazil (App.initial [])); reflexivity.
Defined.

(** C10. With ally selection off and the three roles apart, a click on the
    current defender empties the defender slot and the whole ally list in
    one transition and leaves the aggressor slot as it is. *)
Theorem defender_click_clears_allies (d : CountryFeature) (s : AppState) :
  isSelectingAlly s = false ->
  rolesDisjoint (warState s) ->
  slotIs (defender (warState s)) d = true ->
  warState (handleCountrySelect d s) =
  {| aggressor := aggressor (warState s); defender := None; defenderAllies := [] |}.
Proof.
  intros Hmode (Had & _ & _) Hd.
  assert (Ha : slotIs (aggressor (warState s)) d = false).
  { apply slotIs_false. intros Hin. apply slotIs_true in Hd. exact (Had _ Hin Hd). }
  unfold handleCountrySelect. rewrite Hmode, Ha, Hd. reflexivity.
Qed.

Lemma defender_click_clears_allies_witness :
  warState (handleCountrySelect Sample.chile Sample.coalition) =
  {| aggressor := Some Sample.brazil; defender := None; defenderAllies := [] |}.
Proof.
  apply (defender_click_clears_allies Sample.chile Sample.coalition).
  - reflexivity.
  - repeat split; intros i H1 H2; simpl in H1, H2; intuition congruence.
  - reflexivity.
Defined.

End Toggles.

(** ** Conflict paths *)

Section Paths.
Import Types HoloGlobe.
Context {d3 : D3}.

(** C5. In a frame with an aggressor, a defender and a running simulation,
    the path list has one entry more than there are allies: first the
    aggression path from the centroid of the aggressor to the centroid of the
    defender, then, ally by ally in their order, the counter-attack path from
    the centroid of the ally to the centroid of the aggressor. *)
Theorem conflict_paths_one_plus_allies (w : WarState) (agg def : CountryFeature) :
  aggressor w = Some agg ->
  defender w = Some def ->
  exists paths : list ConflictPath,
    framePaths w true = Some paths
    /\ List.length paths = S (List.length (defenderAllies w))
    /\ nth_error paths 0 =
       Some {| start := geoCentroid agg; end_ := geoCentroid def;
               pathColor := "#f97316"; pathType := AGGRESSION |}
    /\ (forall (i : nat) (ally : CountryFeature),
          nth_error (defenderAllies w) i = Some ally ->
          nth_error paths (S i) =
          Some {| start := geoCentroid ally; end_ := geoCentroid agg;
                  pathColor := "#22d3ee"; pathType := COUNTER_ATTACK |}).
Proof.
  intros Ha Hd. unfold framePaths. rewrite Ha, Hd.
  eexists. split; [reflexivity |]. unfold conflictPaths. repeat split.
  - simpl. now rewrite length_map.
  - intros i ally Hi. simpl. rewrite nth_error_map, Hi. reflexivity.
Qed.

End Paths.

Lemma conflict_paths_one_plus_allies_witness :
  exists paths : list HoloGlobe.ConflictPath,
    HoloGlobe.framePaths (d3 := Sample.flat) (App.warState Sample.coalition) true = Some paths
    /\ List.length paths = 2%nat
    /\ nth_error paths 0 =
       Some (HoloGlobe.mkPath (-70, -30) (-75, -55) "#f97316" HoloGlobe.AGGRESSION)
    /\ nth_error paths 1 =
       Some (HoloGlobe.mkPath (-80, -18) (-70, -30) "#22d3ee" HoloGlobe.COUNTER_ATTACK).
Proof.
  destruct (conflict_paths_one_plus_allies (d3 := Sample.flat)
              (App.warState Sample.coalition) Sample.brazil Sample.chile
              eq_refl eq_refl) as (paths & Hp & Hlen & H0 & Hall).
  exists paths. repeat split.
  - exact Hp.
  - exact Hlen.
  - exact H0.
  - exact (Hall 0%nat Sample.peru eq_refl).
Defined.

(** ** Click detection and hit-testing *)

Section Pointer.
Import Types HoloGlobe.
Context {d3 : D3}.
Variable canvas : Canvas.
Variable features : list CountryFeature.

Lemma dragDist2_nonneg (e : Point) (g : Globe) : 0 <= dragDist2 e g.
Proof.
  unfold dragDist2.
  pose proof (sq_nonneg (fst e - fst (startDragRef g))).
  pose proof (sq_nonneg (snd e - snd (startDragRef g))).
  lra.
Qed.

(** The boolean test on the squares is the comparison of the real square
    root with the threshold. *)
Lemma sqrt_ltb_real (s c : Q) :
  0 <= s -> (Num.sqrt_ltb s c = true <-> (sqrt (Q2R s) < Q2R c)%R).
Proof.
  intros Hs. unfold Num.sqrt_ltb. rewrite andb_true_iff, !ltb_lt.
  assert (Hs' : (0 <= Q2R s)%R).
  { replace 0%R with (Q2R 0) by (unfold Q2R; simpl; Lra.lra). now apply Qle_Rle. }
  split.
  - intros [Hc Hsc].
    assert (Hc' : (0 < Q2R c)%R).
    { replace 0%R with (Q2R 0) by (unfold Q2R; simpl; Lra.lra). now apply Qlt_Rlt. }
    apply Qlt_Rlt in Hsc. rewrite Q2R_mult in Hsc.
    rewrite <- (sqrt_square (Q2R c)) by Lra.lra.
    apply sqrt_lt_1; [exact Hs' | Lra.nra | exact Hsc].
  - intros Hlt.
    pose proof (sqrt_pos (Q2R s)) as Hpos.
    assert (Hc' : (0 < Q2R c)%R) by Lra.lra.
    split.
    + apply Rlt_Qlt. replace (Q2R 0) with 0%R by (unfold Q2R; simpl; Lra.lra). exact Hc'.
    + apply Rlt_Qlt. rewrite Q2R_mult.
      rewrite <- (sqrt_sqrt (Q2R s) Hs') at 1. Lra.nra.
Qed.

Lemma isClick_dist (e : Point) (g : Globe) :
  isClick e g = true <-> (dragDist e g < 15)%R.
Proof.
  unfold isClick, dragDist. rewrite (sqrt_ltb_real _ 15 (dragDist2_nonneg e g)).
  replace (Q2R 15) with 15%R by (unfold Q2R; simpl; Lra.lra). reflexivity.
Qed.

(** C7. For a pointer-up that ends a pointer-down on the canvas: when the
    Euclidean pixel distance between the two positions is below 15 the
    gesture is a click and the territory passed to the selection callback is
    the result of hit-testing the inverted canvas position; when the distance
    is 15 or more it is a drag, the callback is not called and the
    application state stays as it is.  So a distance of 14 is a click and a
    distance of 16 is a drag. *)
Theorem click_iff_distance_below_15 (e : Point) (s : System) :
  isDraggingRef (globe s) = true ->
  ((dragDist e (globe s) < 15)%R ->
     isClick e (globe s) = true
     /\ snd (handleMouseUp canvas features e (globe s)) =
        match projectionInvert (projected (globe s)) (canvasPoint canvas e) with
        | Some inverted => hitTest features inverted
        | None => None
        end)
  /\ ((15 <= dragDist e (globe s))%R ->
      isClick e (globe s) = false
      /\ snd (handleMouseUp canvas features e (globe s)) = None
      /\ app (mouseUp canvas features e s) = app s)
  /\ (dragDist e (globe s) = 14%R -> isClick e (globe s) = true)
  /\ (dragDist e (globe s) = 16%R -> isClick e (globe s) = false).
Proof.
  intros Hdrag.
  assert (Hno : (15 <= dragDist e (globe s))%R -> isClick e (globe s) = false).
  { intros Hge. apply not_true_is_false. rewrite isClick_dist. Lra.lra. }
  repeat split.
  - now apply isClick_dist.
  - unfold handleMouseUp. rewrite Hdrag, (proj2 (isClick_dist e (globe s)) H).
    now destruct (projectionInvert _ _).
  - now apply Hno.
  - unfold handleMouseUp. now rewrite Hdrag, (Hno H).
  - unfold mouseUp, handleMouseUp. now rewrite Hdrag, (Hno H).
  - intros H14. apply isClick_dist. Lra.lra.
  - intros H16. apply Hno. Lra.lra.
Qed.

(** C9. For a click whose canvas position inverts to a point: the territory
    passed to the selection callback is the first one of the feature list
    whose polygon contains the point, and the application state is the one
    the selection handler computes for it; when no territory contains the
    point the callback is not called and the application state is
    unchanged. *)
Theorem hit_test_first_match (e : Point) (s : System) (inverted : LngLat) :
  isDraggingRef (globe s) = true ->
  isClick e (globe s) = true ->
  projectionInvert (projected (globe s)) (canvasPoint canvas e) = Some inverted ->
  (forall (before after : list CountryFeature) (country : CountryFeature),
      features = (before ++ country :: after)%list ->
      (forall f, In f before -> geoContains f inverted = false) ->
      geoContains country inverted = true ->
      snd (handleMouseUp canvas features e (globe s)) = Some country
      /\ app (mouseUp canvas features e s) = App.handleCountrySelect country (app s))
  /\ ((forall f, In f features -> geoContains f inverted = false) ->
      snd (handleMouseUp canvas features e (globe s)) = None
      /\ app (mouseUp canvas features e s) = app s).
Proof.
  intros Hdrag Hclick Hinv. split.
  - intros before after country Hfeat Hbefore Hin.
    assert (Hfind : hitTest features inverted = Some country).
    { unfold hitTest. rewrite Hfeat. clear Hfeat.
      induction before as [| f before IH]; simpl.
      - now rewrite Hin.
      - rewrite (Hbefore f (or_introl eq_refl)). apply IH.
        intros f' Hf'. apply Hbefore. now right. }
    unfold mouseUp, handleMouseUp. rewrite Hdrag, Hclick, Hinv, Hfind. now split.
  - intros Hnone.
    assert (Hfind : hitTest features inverted = None).
    { unfold hitTest. destruct (find _ features) as [f |] eqn:Ef; [| reflexivity].
      apply find_some in Ef. destruct Ef as [Hf Hc].
      rewrite (Hnone f Hf) in Hc. discriminate. }
    unfold mouseUp, handleMouseUp. rewrite Hdrag, Hclick, Hinv, Hfind. now split.
Qed.

End Pointer.

Lemma click_iff_distance_below_15_witness :
  HoloGlobe.isClick (342, 338) (HoloGlobe.globe Sample.pressed) = true
  /\ HoloGlobe.isClick (344, 338) (HoloGlobe.globe Sample.pressed) = false
  /\ HoloGlobe.app (HoloGlobe.mouseUp (d3 := Sample.flat) Sample.canvas Sample.features
                      (344, 338) Sample.pressed)
     = HoloGlobe.app Sample.pressed.
Proof.
  assert (H14 : HoloGlobe.dragDist (342, 338) (HoloGlobe.globe Sample.pressed) = 14%R).
  { unfold HoloGlobe.dragDist.
    replace (Q2R _) with (14 * 14)%R by (unfold Q2R; simpl; Lra.lra).
    apply sqrt_square. Lra.lra. }
  assert (H16 : HoloGlobe.dragDist (344, 338) (HoloGlobe.globe Sample.pressed) = 16%R).
  { unfold HoloGlobe.dragDist.
    replace (Q2R _) with (16 * 16)%R by (unfold Q2R; simpl; Lra.lra).
    apply sqrt_square. Lra.lra. }
  split; [| split].
  - apply (click_iff_distance_below_15 (d3 := Sample.flat) Sample.canvas Sample.features
             (342, 338) Sample.pressed eq_refl).
    exact H14.
  - apply (click_iff_distance_below_15 (d3 := Sample.flat) Sample.canvas Sample.features
             (344, 338) Sample.pressed eq_refl).
    exact H16.
  - apply (click_iff_distance_below_15 (d3 := Sample.flat) Sample.canvas Sample.features
             (344, 338) Sample.pressed eq_refl).
    rewrite H16. Lra.lra.
Defined.

Lemma hit_test_first_match_witness :
  HoloGlobe.app (HoloGlobe.mouseUp (d3 := Sample.flat) Sample.canvas Sample.features
                   (328, 338) Sample.pressed)
  = App.handleCountrySelect Sample.chile (HoloGlobe.app Sample.pressed)
  /\ HoloGlobe.app (HoloGlobe.mouseUp (d3 := Sample.flat) Sample.canvas Sample.features
                      (400, 300) Sample.pressedOcean)
     = HoloGlobe.app Sample.pressedOcean.
Proof.
  split.
  - eapply (hit_test_first_match (d3 := Sample.flat) Sample.canvas Sample.features
              (328, 338) Sample.pressed)
      with (before := [Sample.brazil]) (after := [Sample.peru]).
    + reflexivity.
    + reflexivity.
    + reflexivity.
    + reflexivity.
    + intros f [<- | []]. reflexivity.
    + reflexivity.
  - eapply (hit_test_first_match (d3 := Sample.flat) Sample.canvas Sample.features
              (400, 300) Sample.pressedOcean).
    + reflexivity.
    + reflexivity.
    + reflexivity.
    + intros f [<- | [<- | [<- | []]]]; reflexivity.
Defined.

(** ** Particles *)

Section Particles.
Import HoloGlobe.

Lemma splice1_middle (l1 l2 : list Particle) (p : Particle) :
  splice1 (List.length l1) (l1 ++ p :: l2) = (l1 ++ l2)%list.
Proof.
  induction l1 as [| q l1 IH]; simpl; [reflexivity | now rewrite IH].
Qed.

Lemma store_middle (l1 l2 : list Particle) (p p' : Particle) :
  store (List.length l1) p' (l1 ++ p :: l2) = (l1 ++ p' :: l2)%list.
Proof.
  induction l1 as [| q l1 IH]; simpl; [reflexivity | now rewrite IH].
Qed.

Lemma nth_error_middle (l1 l2 : list Particle) (p : Particle) :
  nth_error (l1 ++ p :: l2) (List.length l1) = Some p.
Proof.
  induction l1 as [| q l1 IH]; simpl; [reflexivity | exact IH].
Qed.

Lemma sweep_app (dt : Q) (l1 l2 : list Particle) :
  sweep dt (l1 ++ l2) = (sweep dt l1 ++ sweep dt l2)%list.
Proof.
  unfold sweep. now rewrite map_app, filter_app.
Qed.

(** The backward loop over the first [n] indices sweeps that prefix and
    leaves the rest of the list alone. *)
Lemma particleLoop_prefix (dt : Q) (n : nat) :
  forall l1 l2 : list Particle,
    List.length l1 = n ->
    particleLoop dt n (l1 ++ l2) = (sweep dt l1 ++ l2)%list.
Proof.
  induction n as [| n IH]; intros l1 l2 Hlen.
  - destruct l1; [reflexivity | discriminate].
  - destruct (exists_last (l := l1)) as (l1' & p & ->).
    { intros ->. discriminate. }
    rewrite length_app, Nat.add_comm in Hlen. simpl in Hlen.
    injection Hlen as Hlen. subst n.
    rewrite <- app_assoc. simpl.
    rewrite nth_error_middle, sweep_app.
    change (sweep dt [p])
      with (if negb (Num.leb (life p - dt * 1.5) 0) then [decay dt p] else []).
    destruct (Num.leb (life p - dt * 1.5) 0); simpl.
    + rewrite splice1_middle, IH by reflexivity. now rewrite app_nil_r.
    + rewrite store_middle, IH by reflexivity. now rewrite <- app_assoc.
Qed.

Lemma updateParticles_sweep (dt : Q) (ps : list Particle) :
  updateParticles dt ps = sweep dt ps.
Proof.
  unfold updateParticles.
  rewrite <- (app_nil_r ps) at 2.
  rewrite (particleLoop_prefix dt _ ps [] eq_refl). apply app_nil_r.
Qed.

Lemma frames_app (dt : Q) (k : nat) (l1 l2 : list Particle) :
  Nat.iter k (updateParticles dt) (l1 ++ l2) =
  (Nat.iter k (updateParticles dt) l1 ++ Nat.iter k (updateParticles dt) l2)%list.
Proof.
  induction k as [| k IH]; simpl; [reflexivity |].
  now rewrite IH, !updateParticles_sweep, sweep_app.
Qed.

Lemma life_after (dt : Q) (p : Particle) (k : nat) :
  life (Nat.iter k (decay dt) p) == life p - inject_Z (Z.of_nat k) * (dt * 1.5).
Proof.
  induction k as [| k IH].
  - simpl. unfold inject_Z. lra.
  - rewrite Nat2Z.inj_succ. unfold Z.succ. rewrite inject_Z_plus.
    simpl Nat.iter. unfold decay at 1. simpl life. rewrite IH.
    unfold inject_Z at 3. lra.
Qed.

(** A lone particle is in the list exactly as long as its life is positive. *)
Lemma frames_single (dt : Q) (p : Particle) (k : nat) :
  0 <= dt ->
  alive p = true ->
  Nat.iter k (updateParticles dt) [p] =
  if alive (Nat.iter k (decay dt) p) then [Nat.iter k (decay dt) p] else [].
Proof.
  intros Hdt Hp. induction k as [| k IH].
  - simpl. now rewrite Hp.
  - simpl Nat.iter. rewrite IH, updateParticles_sweep.
    set (pk := Nat.iter k (decay dt) p).
    destruct (alive pk) eqn:Ek.
    + reflexivity.
    + assert (Hdead : alive (decay dt pk) = false).
      { unfold alive in *. apply negb_false_iff in Ek. apply negb_false_iff.
        apply leb_le in Ek. apply leb_le. unfold decay. simpl. lra. }
      now rewrite Hdead.
Qed.

Lemma before_lifetime (dt : Q) (k : nat) :
  0 < dt -> (k < lifetime dt)%nat -> inject_Z (Z.of_nat k) * (dt * 1.5) < 1.
Proof.
  intros Hdt Hk. unfold lifetime in Hk.
  set (q := 1 / (1.5 * dt)) in *.
  assert (Hq : q * (dt * 1.5) == 1) by (unfold q; field; lra).
  assert (Hlt : inject_Z (Z.of_nat k) < q).
  { apply Qle_lt_trans with (inject_Z (Qceiling q - 1)).
    - rewrite <- Zle_Qle. lia.
    - apply Qceiling_lt. }
  rewrite <- Hq. apply Qmult_lt_r; [lra | exact Hlt].
Qed.

Lemma from_lifetime (dt : Q) (k : nat) :
  0 < dt -> (lifetime dt <= k)%nat -> 1 <= inject_Z (Z.of_nat k) * (dt * 1.5).
Proof.
  intros Hdt Hk. unfold lifetime in Hk.
  set (q := 1 / (1.5 * dt)) in *.
  assert (Hq : q * (dt * 1.5) == 1) by (unfold q; field; lra).
  assert (Hle : q <= inject_Z (Z.of_nat k)).
  { apply Qle_trans with (inject_Z (Qceiling q)).
    - apply Qle_ceiling.
    - rewrite <- Zle_Qle. lia. }
  rewrite <- Hq. apply Qmult_le_r; [lra | exact Hle].
Qed.

(** C6. A particle created with life 1 and stepped with a fixed positive
    time step [dt] (its life decreasing by [1.5 * dt] a frame) has a positive
    life after every frame before the [ceil (1 / (1.5 * dt))]-th, a life of
    at most 0 at that frame, and, wherever it stands in the particle list, is
    in the list after [k] frames exactly when [k] is below that number: it is
    removed in that very frame and stays absent. *)
Theorem particle_lifetime (dt : Q) (p : Particle) :
  0 < dt ->
  life p == 1 ->
  (forall k : nat, (k < lifetime dt)%nat -> 0 < life (Nat.iter k (decay dt) p))
  /\ life (Nat.iter (lifetime dt) (decay dt) p) <= 0
  /\ (forall (before after : list Particle) (k : nat),
        Nat.iter k (updateParticles dt) (before ++ p :: after) =
        Nat.iter k (updateParticles dt) before
        ++ (if (k <? lifetime dt)%nat then [Nat.iter k (decay dt) p] else [])
        ++ Nat.iter k (updateParticles dt) after).
Proof.
  intros Hdt Hlife.
  assert (Hpos : forall k, (k < lifetime dt)%nat -> 0 < life (Nat.iter k (decay dt) p)).
  { intros k Hk. rewrite life_after, Hlife.
    pose proof (before_lifetime dt k Hdt Hk). lra. }
  assert (Hneg : forall k, (lifetime dt <= k)%nat -> life (Nat.iter k (decay dt) p) <= 0).
  { intros k Hk. rewrite life_after, Hlife.
    pose proof (from_lifetime dt k Hdt Hk). lra. }
  repeat split.
  - exact Hpos.
  - apply Hneg. apply Nat.le_refl.
  - intros before after k.
    change (before ++ p :: after) with (before ++ [p] ++ after).
    rewrite !frames_app. f_equal. f_equal.
    rewrite frames_single.
    + unfold alive. destruct (Nat.ltb_spec k (lifetime dt)) as [Hk | Hk].
      * now rewrite (proj2 (leb_gt _ _) (Hpos k Hk)).
      * now rewrite (proj2 (leb_le _ _) (Hneg k Hk)).
    + lra.
    + unfold alive. apply negb_true_iff, leb_gt. rewrite Hlife. lra.
Qed.

Lemma particle_lifetime_witness :
  lifetime 0.1 = 7%nat
  /\ Nat.iter 6 (updateParticles 0.1) [Sample.spark] = [Nat.iter 6 (decay 0.1) Sample.spark]
  /\ Nat.iter 7 (updateParticles 0.1) [Sample.spark] = [].
Proof.
  destruct (particle_lifetime 0.1 Sample.spark) as (_ & _ & H).
  - reflexivity.
  - reflexivity.
  - split; [reflexivity |]. split.
    + exact (H [] [] 6%nat).
    + exact (H [] [] 7%nat).
Defined.

End Particles.

(** ** Missiles *)

Section Missiles.
Import HoloGlobe.
Context {d3 : D3}.
Variable canvas : Canvas.

Lemma trunc_floor (q : Q) : 0 <= q -> Num.trunc q = Qfloor q.
Proof.
  destruct q as [n d]. unfold Qle, Num.trunc, Qfloor. simpl. intros Hn.
  apply Z.quot_div_nonneg; lia.
Qed.

(** The remainder of a non-negative number by a positive one. *)
Lemma rem_bounds (a b : Q) :
  0 <= a -> 0 < b ->
  0 <= Num.rem a b /\ Num.rem a b < b
  /\ (0 <= Num.trunc (a / b))%Z
  /\ a == Num.rem a b + b * inject_Z (Num.trunc (a / b)).
Proof.
  intros Ha Hb. unfold Num.rem.
  assert (Hq : 0 <= a / b).
  { apply Qle_shift_div_l; [exact Hb | lra]. }
  rewrite (trunc_floor _ Hq).
  pose proof (Qfloor_le (a / b)) as Hlo.
  pose proof (Qlt_floor (a / b)) as Hhi.
  rewrite inject_Z_plus in Hhi. unfold inject_Z at 2 in Hhi.
  set (f := inject_Z (Qfloor (a / b))) in *.
  assert (Hab : a == a / b * b) by (field; lra).
  assert (H1 : f * b <= a / b * b) by (apply Qmult_le_compat_r; lra).
  assert (H2 : a / b * b < (f + 1) * b) by (apply Qmult_lt_compat_r; lra).
  repeat split; try lra.
  apply Qfloor_resp_le in Hq. exact Hq.
Qed.

(** The missile a frame stores is the advanced one, whatever is drawn. *)
Lemma updateMissile_advance (dt : Q) (rot : Rotation) (paths : list ConflictPath)
    (idx : nat) (m : Missile) (ps : list Particle) (g : Rng.Stream) :
  fst (Rng.eval (updateMissile canvas dt rot paths idx m ps) g) = advance dt m.
Proof.
  unfold updateMissile, Rng.eval, Rng.bind, Rng.ret, Rng.random.
  repeat match goal with
         | |- context [match ?x with _ => _ end] => destruct x
         end; reflexivity.
Qed.

Lemma updateMissiles_advance (dt : Q) (rot : Rotation) (paths : list ConflictPath)
    (ms : list Missile) :
  forall (idx : nat) (ps : list Particle) (g : Rng.Stream),
    fst (Rng.eval (updateMissiles canvas dt rot paths idx ms ps) g) = map (advance dt) ms.
Proof.
  induction ms as [| m ms IH]; intros idx ps g; [reflexivity |].
  simpl. unfold Rng.eval, Rng.bind.
  pose proof (updateMissile_advance dt rot paths idx m ps g) as Hm.
  unfold Rng.eval in Hm.
  destruct (updateMissile canvas dt rot paths idx m ps g) as [mp g1].
  specialize (IH (S idx) (snd mp) g1). unfold Rng.eval in IH.
  destruct (updateMissiles canvas dt rot paths (S idx) ms (snd mp) g1) as [rp g2].
  simpl in *. now rewrite Hm, IH.
Qed.

Lemma t_after (dt : Q) (m : Missile) (n : nat) :
  t (Nat.iter n (advance dt) m) == t m + inject_Z (Z.of_nat n) * (speed m * dt)
  /\ speed (Nat.iter n (advance dt) m) = speed m
  /\ offset (Nat.iter n (advance dt) m) = offset m.
Proof.
  induction n as [| n (IHt & IHs & IHo)].
  - simpl. repeat split. unfold inject_Z. lra.
  - rewrite Nat2Z.inj_succ. unfold Z.succ. rewrite inject_Z_plus.
    simpl Nat.iter. unfold advance at 1 3 5. simpl.
    rewrite IHt, IHs. repeat split; [| exact IHo].
    unfold inject_Z at 3. lra.
Qed.

(** The missiles a frame stores: advanced by the step of the frame while the
    war layer is drawn, untouched otherwise. *)
Lemma render_missiles (now : Z) (w : Types.WarState) (sim : bool) (g : Globe)
    (rng : Rng.Stream) :
  missiles (Rng.eval (render canvas now w sim g) rng) =
  match framePaths w sim with
  | Some _ => map (advance (frameDt now g)) (missiles g)
  | None => missiles g
  end.
Proof.
  assert (Hm : missiles (physics g) = missiles g).
  { unfold physics. now destruct (isDraggingRef g). }
  unfold render. destruct (framePaths w sim) as [paths |].
  - pose proof (updateMissiles_advance (frameDt now g) (rotationRef (physics g)) paths
                  (missiles (physics g)) 0 (particles (physics g)) rng) as H.
    unfold Rng.eval, Rng.bind in *.
    destruct (updateMissiles _ _ _ _ _ _ _ _) as [mp g1]. simpl in *.
    now rewrite H, Hm.
  - unfold Rng.eval, Rng.ret. simpl. exact Hm.
Qed.

(** The particles a frame keeps: the loop runs over the list the missile
    loop has left, while the war layer is drawn. *)
Lemma render_particles (now : Z) (w : Types.WarState) (sim : bool) (g : Globe)
    (rng : Rng.Stream) :
  particles (Rng.eval (render canvas now w sim g) rng) =
  match framePaths w sim with
  | Some paths =>
      updateParticles (frameDt now g)
        (snd (Rng.eval (updateMissiles canvas (frameDt now g) (rotationRef (physics g))
                          paths 0 (missiles g) (particles g)) rng))
  | None => particles g
  end.
Proof.
  assert (Hm : missiles (physics g) = missiles g
               /\ particles (physics g) = particles g).
  { unfold physics. now destruct (isDraggingRef g). }
  destruct Hm as [Hm Hp].
  unfold render. destruct (framePaths w sim) as [paths |].
  - rewrite Hm, Hp. unfold Rng.eval, Rng.bind.
    now destruct (updateMissiles _ _ _ _ _ _ _ _) as [mp g1].
  - unfold Rng.eval, Rng.ret. simpl. exact Hp.
Qed.

(** X22. A frame that draws the war layer stores each missile with its
    progress advanced by [speed * dt], any other frame leaves the missiles as
    they are, and no frame wraps the stored value: after [n] advances of step
    [dt] it is [t + n * speed * dt].  What wraps is the cycle position the
    frame derives from it, [(t + offset) % 1.5]: for a non-negative
    [t + offset] it lies in [0, 1.5) and differs from [t + offset] by a whole
    number of periods of 1.5. *)
Theorem missile_cycle_wraps (dt : Q) (m : Missile) (n : nat) :
  0 <= t m + offset m ->
  (forall (now : Z) (w : Types.WarState) (sim : bool) (g : Globe) (rng : Rng.Stream),
      missiles (Rng.eval (render canvas now w sim g) rng)
      = match framePaths w sim with
        | Some _ => map (advance (frameDt now g)) (missiles g)
        | None => missiles g
        end)
  /\ t (Nat.iter n (advance dt) m) == t m + inject_Z (Z.of_nat n) * (speed m * dt)
  /\ 0 <= cycleT m /\ cycleT m < 1.5
  /\ exists k : Z, (0 <= k)%Z /\ t m + offset m == cycleT m + 1.5 * inject_Z k.
Proof.
  intros Hnn.
  destruct (rem_bounds (t m + offset m) 1.5 Hnn) as (H0 & H1 & Hk & Heq); [lra |].
  split; [intros; apply render_missiles |].
  split; [apply t_after |].
  split; [exact H0 |]. split; [exact H1 |].
  exists (Num.trunc ((t m + offset m) / 1.5)). split; [exact Hk | exact Heq].
Qed.

End Missiles.

Lemma missile_cycle_wraps_witness :
  HoloGlobe.t (Nat.iter 40 (HoloGlobe.advance 0.1) Sample.jet) == 1.7
  /\ 0 <= HoloGlobe.cycleT (Nat.iter 40 (HoloGlobe.advance 0.1) Sample.jet)
  /\ HoloGlobe.cycleT (Nat.iter 40 (HoloGlobe.advance 0.1) Sample.jet) < 1.5.
Proof.
  split.
  - destruct (missile_cycle_wraps (d3 := Sample.flat) Sample.canvas 0.1 Sample.jet 40)
      as (_ & Ht & _).
    + vm_compute. discriminate.
    + rewrite Ht. reflexivity.
  - destruct (missile_cycle_wraps (d3 := Sample.flat) Sample.canvas 0.1
                (Nat.iter 40 (HoloGlobe.advance 0.1) Sample.jet) 0)
      as (_ & _ & H0 & H1 & _).
    + vm_compute. discriminate.
    + split; [exact H0 | exact H1].
Defined.

(** C3.  The stored progress is not wrapped: the pointer goes down and
    sixteen frames of a running simulation follow, 100 ms apart; every
    missile of the pool, seeded with progress 0.9 and speed 0.38, then has
    the stored progress 1.508, which is outside [0, 1.5), is not its value
    modulo 1.5, and is outside the range 0 to 1 the [Missile] interface
    documents for [t]. *)
Lemma stored_progress_not_wrapped :
  let s := Rng.eval
             (HoloGlobe.runInputs (d3 := Sample.flat) Sample.canvas Sample.features
                Sample.sixteenFrames Sample.battle) Sample.highs in
  List.length (HoloGlobe.missiles (HoloGlobe.globe s)) = 20%nat
  /\ Forall (fun m : HoloGlobe.Missile =>
               HoloGlobe.t m == 1.508
               /\ ~ (HoloGlobe.t m < 1.5)
               /\ ~ (HoloGlobe.t m == Num.rem (HoloGlobe.t m) 1.5)
               /\ ~ (HoloGlobe.t m <= 1))
            (HoloGlobe.missiles (HoloGlobe.globe s)).
Proof.
  intros s.
  assert (E : map (fun m => Qred (HoloGlobe.t m)) (HoloGlobe.missiles (HoloGlobe.globe s))
              = repeat (377 # 250) 20) by (vm_compute; reflexivity).
  clearbody s. split.
  - rewrite <- (length_map (fun m => Qred (HoloGlobe.t m))), E. reflexivity.
  - apply Forall_forall. intros m Hin.
    assert (Hm : Qred (HoloGlobe.t m) = 377 # 250).
    { apply (in_map (fun m => Qred (HoloGlobe.t m))) in Hin. rewrite E in Hin.
      now apply repeat_spec in Hin. }
    assert (Ht : HoloGlobe.t m == 377 # 250) by (rewrite <- Hm; symmetry; apply Qred_correct).
    split; [rewrite Ht; reflexivity |].
    split; [rewrite Ht; intros H; discriminate H |].
    split; [| rewrite Ht; intros H; apply H; reflexivity].
    unfold Num.rem. intros H.
    assert (Hq : HoloGlobe.t m / 1.5 == (377 # 250) / 1.5) by (now rewrite Ht).
    assert (Htr : Num.trunc (HoloGlobe.t m / 1.5) = 1%Z).
    { rewrite trunc_floor.
      - rewrite (Qfloor_comp _ _ Hq). reflexivity.
      - rewrite Hq. discriminate. }
    rewrite Htr, Ht in H. discriminate H.
Qed.

(** ** Tilt *)

Section Tilt.
Import Types HoloGlobe.
Context {d3 : D3}.
Variable canvas : Canvas.

(** The rotation after a frame is the one the physics step computes. *)
Lemma render_rotation (now : Z) (w : WarState) (sim : bool) (g : Globe) (rng : Rng.Stream) :
  rotationRef (Rng.eval (render canvas now w sim g) rng) = rotationRef (physics g)
  /\ isDraggingRef (Rng.eval (render canvas now w sim g) rng) = isDraggingRef g.
Proof.
  assert (Hd : isDraggingRef (physics g) = isDraggingRef g).
  { unfold physics. destruct (isDraggingRef g) eqn:E; [exact E | reflexivity]. }
  unfold render, Rng.eval. destruct (framePaths w sim) as [paths |].
  - unfold Rng.bind. destruct (updateMissiles _ _ _ _ _ _ _ _) as [mp g1]. simpl.
    now split.
  - simpl. now split.
Qed.

(** C2, as the code has it.  A frame rendered while the pointer is not
    dragging leaves the tilt within [-45, 45], whatever it was before; a
    frame rendered during a drag does not clamp and leaves the tilt where the
    pointer moves have put it. *)
Theorem tilt_clamped_when_not_dragging (now : Z) (w : WarState) (sim : bool)
    (g : Globe) (rng : Rng.Stream) :
  (isDraggingRef g = false ->
   -45 <= tilt (Rng.eval (render canvas now w sim g) rng)
   /\ tilt (Rng.eval (render canvas now w sim g) rng) <= 45)
  /\ (isDraggingRef g = true ->
      tilt (Rng.eval (render canvas now w sim g) rng) = tilt g).
Proof.
  unfold tilt. rewrite (proj1 (render_rotation now w sim g rng)).
  unfold physics. split; intros ->; simpl.
  - apply clamp_between. lra.
  - reflexivity.
Qed.

End Tilt.

Lemma tilt_clamped_when_not_dragging_witness :
  (-45 <= HoloGlobe.tilt
            (Rng.eval (HoloGlobe.render (d3 := Sample.flat) Sample.canvas 16
                         (App.warState Sample.coalition) true
                         (HoloGlobe.globe Sample.system0)) Sample.halves)
   /\ HoloGlobe.tilt
        (Rng.eval (HoloGlobe.render (d3 := Sample.flat) Sample.canvas 16
                     (App.warState Sample.coalition) true
                     (HoloGlobe.globe Sample.system0)) Sample.halves) <= 45)
  /\ HoloGlobe.tilt
       (Rng.eval (HoloGlobe.render (d3 := Sample.flat) Sample.canvas 16
                    (App.warState Sample.coalition) true
                    (HoloGlobe.globe Sample.pressed)) Sample.halves)
     = HoloGlobe.tilt (HoloGlobe.globe Sample.pressed).
Proof.
  split.
  - apply (tilt_clamped_when_not_dragging (d3 := Sample.flat) Sample.canvas 16
             (App.warState Sample.coalition) true (HoloGlobe.globe Sample.system0)
             Sample.halves).
    reflexivity.
  - apply (tilt_clamped_when_not_dragging (d3 := Sample.flat) Sample.canvas 16
             (App.warState Sample.coalition) true (HoloGlobe.globe Sample.pressed)
             Sample.halves).
    reflexivity.
Defined.

(** C2 as the specification words it fails: the pointer goes down, moves up by 200
    pixels, and the next frame leaves the tilt at 80. *)
Lemma tilt_leaves_range_while_dragging :
  let s := Rng.eval
             (HoloGlobe.runInputs (d3 := Sample.flat) Sample.canvas Sample.features
                [HoloGlobe.MouseDown (400, 300); HoloGlobe.MouseMove (400, 100);
                 HoloGlobe.Frame 16]
                Sample.system0) Sample.halves in
  HoloGlobe.tilt (HoloGlobe.globe s) == 80
  /\ ~ (-45 <= HoloGlobe.tilt (HoloGlobe.globe s) /\ HoloGlobe.tilt (HoloGlobe.globe s) <= 45).
Proof.
  split.
  - vm_compute. reflexivity.
  - intros [_ H]. vm_compute in H. apply H. reflexivity.
Qed.

(** ** The procedural battle log *)

Section BattleLog.
Import Str GeminiService.

Lemma generateMockWarLog_eval (countryA countryB : string) (allies : list string)
    (g : Rng.Stream) :
  Rng.eval (generateMockWarLog countryA countryB allies) g =
  let chanceA := chanceOf countryA countryB allies in
  let winner := if Num.ltb (g 0%nat) chanceA then countryA else countryB in
  let loser := if String.eqb winner countryA then countryB else countryA in
  trim (report countryA countryB allies winner loser
               (Num.ltb (Num.abs (chanceA - (1 # 2))) (1 # 10))
               (pick EXTERNAL_EVENTS (g 1%nat)) (pick BATTLE_TYPES (g 2%nat))
               (Qfloor (55 + g 3%nat * 40))).
Proof. reflexivity. Qed.

(** C4, as the code has it.  The fallback report is a function of its
    arguments and of four draws of [Math.random]: two invocations with the
    same arguments give the same text whenever their draws agree on the side
    of the aggressor's chance the first falls, on the event and the battle
    type the second and third select, and on the confidence the fourth
    yields; in particular whenever the draws are the same. *)
Theorem mock_log_determined_by_draws (countryA countryB : string) (allies : list string)
    (g1 g2 : Rng.Stream) :
  Num.ltb (g1 0%nat) (chanceOf countryA countryB allies)
  = Num.ltb (g2 0%nat) (chanceOf countryA countryB allies) ->
  Qfloor (g1 1%nat * 7) = Qfloor (g2 1%nat * 7) ->
  Qfloor (g1 2%nat * 6) = Qfloor (g2 2%nat * 6) ->
  Qfloor (55 + g1 3%nat * 40) = Qfloor (55 + g2 3%nat * 40) ->
  Rng.eval (generateMockWarLog countryA countryB allies) g1
  = Rng.eval (generateMockWarLog countryA countryB allies) g2
  /\ Rng.eval (simulateWarScenario None countryA countryB allies) g1
     = Rng.eval (simulateWarScenario None countryA countryB allies) g2.
Proof.
  intros Hwin Hevent Hbattle Hprob.
  assert (H : Rng.eval (generateMockWarLog countryA countryB allies) g1
              = Rng.eval (generateMockWarLog countryA countryB allies) g2).
  { rewrite !generateMockWarLog_eval. cbv zeta. unfold pick.
    change (inject_Z (Z.of_nat (List.length EXTERNAL_EVENTS))) with 7.
    change (inject_Z (Z.of_nat (List.length BATTLE_TYPES))) with 6.
    now rewrite Hwin, Hevent, Hbattle, Hprob. }
  split; [exact H | exact H].
Qed.

End BattleLog.

Lemma mock_log_determined_by_draws_witness :
  Rng.eval (GeminiService.generateMockWarLog "Brazil" "Chile" ["Peru"])
           (Rng.ofList [0.5; 0.3; 0.75; 0.2] 0)
  = Rng.eval (GeminiService.generateMockWarLog "Brazil" "Chile" ["Peru"])
             (Rng.ofList [0.6; 0.4; 0.8; 0.21; 0.9] 0.1).
Proof.
  apply (mock_log_determined_by_draws "Brazil" "Chile" ["Peru"]); reflexivity.
Defined.

(** C4 as the specification words it fails: with the same two countries and no
    ally, two runs whose draws differ give different reports. *)
Lemma mock_log_differs_between_runs :
  Rng.eval (GeminiService.generateMockWarLog "Brazil" "Chile" [])
           (Rng.ofList [0.1; 0.1; 0.1; 0.1] 0)
  <> Rng.eval (GeminiService.generateMockWarLog "Brazil" "Chile" [])
              (Rng.ofList [0.9; 0.9; 0.9; 0.9] 0).
Proof.
  vm_compute. intros H. discriminate H.
Qed.

(** * Further properties of the code *)

(** ** Power scores *)

Section Scores.
Import Str Types GeminiService HudWidgets.

Lemma toInt32_range (z : Z) : (- 2 ^ 31 <= Num.toInt32 z < 2 ^ 31)%Z.
Proof.
  unfold Num.toInt32.
  pose proof (Z.mod_pos_bound (z + 2 ^ 31) (2 ^ 32) eq_refl). lia.
Qed.

Lemma toInt32_small (z : Z) : (- 2 ^ 31 <= z < 2 ^ 31)%Z -> Num.toInt32 z = z.
Proof.
  intros Hz. unfold Num.toInt32. rewrite Z.mod_small; lia.
Qed.

Lemma hashFrom_range (s : string) :
  forall h : Z, (- 2 ^ 31 <= h < 2 ^ 31)%Z ->
                (- 2 ^ 31 <= hashFrom h s < 2 ^ 31)%Z.
Proof.
  induction s as [| c s IH]; intros h Hh; simpl.
  - exact Hh.
  - apply IH, toInt32_range.
Qed.

Lemma seed_range (name : string) : (0 <= Z.abs (hashFrom 0 name) <= 2 ^ 31)%Z.
Proof.
  pose proof (hashFrom_range name 0 ltac:(lia)). lia.
Qed.

(** A statistic taken from the seed itself. *)
Lemma plain_stat (seed m : Z) :
  (0 <= seed)%Z -> (0 < m)%Z -> (0 <= Num.remz seed m < m)%Z.
Proof.
  intros Hs Hm. unfold Num.remz. apply Z.rem_bound_pos; lia.
Qed.

(** A statistic taken from the shifted seed: the shift works on the 32-bit
    value, which is negative for the seed [2 ^ 31]. *)
Lemma shifted_stat (seed k : Z) :
  (0 <= seed <= 2 ^ 31)%Z -> In k [2; 4; 6; 8; 10]%Z ->
  (8 <= 40 + Num.remz (Num.sar seed k) 60 <= 99)%Z
  /\ (seed < 2 ^ 31 -> 40 <= 40 + Num.remz (Num.sar seed k) 60)%Z.
Proof.
  intros Hs Hk.
  destruct (Z.eq_dec seed (2 ^ 31)) as [-> | Hne].
  - simpl in Hk.
    repeat (destruct Hk as [<- | Hk]; [vm_compute; repeat split; try discriminate; lia |]).
    destruct Hk.
  - unfold Num.sar, Num.remz. rewrite toInt32_small by lia.
    assert (Hsh : (0 <= Z.shiftr seed k)%Z) by (apply Z.shiftr_nonneg; lia).
    pose proof (Z.rem_bound_pos (Z.shiftr seed k) 60 Hsh eq_refl). lia.
Qed.

Lemma getCountryStats_bounds (name : string) :
  let st := getCountryStats name in
  (40 <= infantry st <= 99)%Z
  /\ (1 <= techLevel st <= 10)%Z
  /\ (50000 <= manpower st <= 549999)%Z
  /\ Forall (fun v => 8 <= v <= 99)%Z
            [armor st; air st; cyber st; logistics st; intel st]
  /\ (hashFrom 0 name <> (- 2 ^ 31)%Z ->
      Forall (fun v => 40 <= v <= 99)%Z
             [armor st; air st; cyber st; logistics st; intel st]).
Proof.
  pose proof (seed_range name) as Hseed.
  assert (H0 : (0 <= Z.abs (hashFrom 0 name))%Z) by lia.
  pose proof (plain_stat _ 60 H0 eq_refl).
  pose proof (plain_stat _ 10 H0 eq_refl).
  pose proof (plain_stat _ 500000 H0 eq_refl).
  assert (Hsh : forall k, In k [2; 4; 6; 8; 10]%Z ->
                 (8 <= 40 + Num.remz (Num.sar (Z.abs (hashFrom 0 name)) k) 60 <= 99)%Z
                 /\ (Z.abs (hashFrom 0 name) < 2 ^ 31 ->
                     40 <= 40 + Num.remz (Num.sar (Z.abs (hashFrom 0 name)) k) 60)%Z).
  { intros k Hk. apply shifted_stat; assumption. }
  cbv zeta. unfold getCountryStats. cbn [infantry armor air cyber logistics intel manpower techLevel].
  split; [lia |]. split; [lia |]. split; [lia |]. split.
  - repeat constructor; apply Hsh; simpl; tauto.
  - intros Hne.
    assert (Hlt : (Z.abs (hashFrom 0 name) < 2 ^ 31)%Z).
    { pose proof (hashFrom_range name 0 ltac:(lia)). lia. }
    repeat constructor;
      try (apply Hsh; [simpl; tauto | exact Hlt]);
      apply Hsh; simpl; tauto.
Qed.

(** X1. Whatever the name, the figures of [getCountryStats] stay on the
    charts: infantry is between 40 and 99, the tech level between 1 and 10,
    the manpower between 50000 and 549999, and armor, air, cyber, logistics
    and intel are between 8 and 99, below the radar's full mark of 100; they
    are at least 40 unless the hash of the name is the least 32-bit integer,
    whose absolute value does not fit in 32 bits. *)
Theorem country_stats_bounds (name : string) :
  let st := getCountryStats name in
  (40 <= infantry st <= 99)%Z
  /\ (1 <= techLevel st <= 10)%Z
  /\ (50000 <= manpower st <= 549999)%Z
  /\ Forall (fun v => 8 <= v <= 99)%Z
            [armor st; air st; cyber st; logistics st; intel st]
  /\ (hashFrom 0 name <> (- 2 ^ 31)%Z ->
      Forall (fun v => 40 <= v <= 99)%Z
             [armor st; air st; cyber st; logistics st; intel st]).
Proof. apply getCountryStats_bounds. Qed.

Lemma country_stats_bounds_witness :
  Forall (fun v => 40 <= v <= 99)%Z
         [armor (getCountryStats "Brazil"); air (getCountryStats "Brazil");
          cyber (getCountryStats "Brazil"); logistics (getCountryStats "Brazil");
          intel (getCountryStats "Brazil")].
Proof.
  apply (country_stats_bounds "Brazil"). vm_compute. discriminate.
Defined.

Lemma powerScore_stats (name : string) :
  getPowerScore name = powerOf (Some (getCountryStats name)).
Proof. reflexivity. Qed.

Lemma powerScore_range (name : string) : (130 <= getPowerScore name <= 397)%Z.
Proof.
  destruct (getCountryStats_bounds name) as (Hi & Ht & _ & Hall & Hnorm).
  rewrite powerScore_stats. unfold powerOf.
  destruct (Z.eq_dec (hashFrom 0 name) (- 2 ^ 31)) as [Hmin | Hne].
  - unfold getCountryStats in *. rewrite Hmin. vm_compute. split; discriminate.
  - specialize (Hnorm Hne). rewrite Forall_forall in Hnorm.
    pose proof (Hnorm (armor (getCountryStats name)) (or_introl eq_refl)).
    pose proof (Hnorm (air (getCountryStats name)) (or_intror (or_introl eq_refl))).
    lia.
Qed.

(** X2. The power score of the fallback generator is between 130 and 397
    for every name, so it is never zero. *)
Theorem power_score_between_130_and_397 (name : string) :
  (130 <= getPowerScore name <= 397)%Z.
Proof. apply powerScore_range. Qed.

End Scores.

(** ** The aggressor's chance and the dominance bar *)

Section Chance.
Import Str Types GeminiService HudWidgets.

Lemma score_pos (name : string) : 0 < inject_Z (getPowerScore name).
Proof.
  pose proof (powerScore_range name).
  change 0 with (inject_Z 0). rewrite <- Zlt_Qlt. lia.
Qed.

Lemma alliesScore_snoc (allies : list string) (ally : string) :
  alliesScoreOf (allies ++ [ally])
  = alliesScoreOf allies + inject_Z (getPowerScore ally) * (1 # 2).
Proof.
  unfold alliesScoreOf. now rewrite fold_left_app.
Qed.

Lemma alliesScore_from (allies : list string) :
  forall acc : Q,
    acc <= fold_left (fun acc ally => acc + inject_Z (getPowerScore ally) * (1 # 2))
                     allies acc.
Proof.
  induction allies as [| ally allies IH]; intros acc; simpl.
  - apply Qle_refl.
  - eapply Qle_trans; [| apply IH].
    pose proof (score_pos ally). lra.
Qed.

Lemma alliesScore_nonneg (allies : list string) : 0 <= alliesScoreOf allies.
Proof. apply alliesScore_from. Qed.

Lemma chanceOf_ratio (countryA countryB : string) (allies : list string) :
  chanceOf countryA countryB allies
  = inject_Z (getPowerScore countryA)
    / (inject_Z (getPowerScore countryA) + inject_Z (getPowerScore countryB)
       + alliesScoreOf allies).
Proof.
  unfold chanceOf. cbv zeta.
  destruct (Qeq_bool _ 0) eqn:E; [| reflexivity].
  apply Qeq_bool_eq in E.
  pose proof (score_pos countryA). pose proof (score_pos countryB).
  pose proof (alliesScore_nonneg allies). lra.
Qed.

Lemma ratio_bounds (a rest : Q) : 0 < a -> 0 < rest -> 0 < a / (a + rest) /\ a / (a + rest) < 1.
Proof.
  intros Ha Hr. split.
  - apply Qlt_shift_div_l; lra.
  - apply Qlt_shift_div_r; lra.
Qed.

Lemma ratio_antitone (a t h : Q) : 0 < a -> 0 < t -> 0 < h -> a / (t + h) < a / t.
Proof.
  intros Ha Ht Hh.
  apply Qlt_shift_div_r; [lra |].
  assert (Hq : 0 < a / t) by (apply Qlt_shift_div_l; lra).
  assert (Hat : a / t * t == a) by (field; lra).
  assert (Hqh : 0 < a / t * h) by (apply Qmult_lt_0_compat; assumption).
  rewrite Qmult_plus_distr_r, Hat. lra.
Qed.

Lemma chanceOf_bounds (countryA countryB : string) (allies : list string) :
  0 < chanceOf countryA countryB allies /\ chanceOf countryA countryB allies < 1.
Proof.
  rewrite chanceOf_ratio.
  pose proof (score_pos countryA). pose proof (score_pos countryB).
  pose proof (alliesScore_nonneg allies).
  assert (E1 : inject_Z (getPowerScore countryA) + inject_Z (getPowerScore countryB)
               + alliesScoreOf allies
               == inject_Z (getPowerScore countryA)
                  + (inject_Z (getPowerScore countryB) + alliesScoreOf allies)) by ring.
  rewrite E1. apply ratio_bounds; lra.
Qed.

(** X3. The chance of the aggressor in the fallback generator is the share
    of its power score in the total, strictly between 0 and 1 (the guard for
    a zero total never fires), and every further ally of the defender
    strictly lowers it. *)
Theorem aggressor_chance_lowered_by_allies
    (countryA countryB : string) (allies : list string) (ally : string) :
  0 < chanceOf countryA countryB allies
  /\ chanceOf countryA countryB allies < 1
  /\ chanceOf countryA countryB (allies ++ [ally]) < chanceOf countryA countryB allies.
Proof.
  destruct (chanceOf_bounds countryA countryB allies) as [H0 H1].
  split; [exact H0 |]. split; [exact H1 |].
  rewrite !chanceOf_ratio, alliesScore_snoc.
  pose proof (score_pos countryA) as HA. pose proof (score_pos countryB) as HB.
  pose proof (score_pos ally) as HY.
  pose proof (alliesScore_nonneg allies) as Hal.
  set (a := inject_Z (getPowerScore countryA)) in *.
  set (b := inject_Z (getPowerScore countryB)) in *.
  set (y := inject_Z (getPowerScore ally)) in *.
  set (l := alliesScoreOf allies) in *.
  assert (E2 : a + b + (l + y * (1 # 2)) == (a + b + l) + y * (1 # 2)) by ring.
  rewrite E2. apply ratio_antitone; lra.
Qed.

(** X4. With both factions set, the dominance bar of the HUD shows, in per
    cent, the chance the fallback generator gives the aggressor when there
    are no allies; it is strictly between 0 and 100. *)
Theorem dominance_bar_matches_chance (w : WarState) (agg def : CountryFeature) :
  aggressor w = Some agg ->
  defender w = Some def ->
  percentA w == chanceOf (name agg) (name def) [] * 100
  /\ 0 < percentA w /\ percentA w < 100.
Proof.
  intros Ha Hd.
  assert (E : percentA w == chanceOf (name agg) (name def) [] * 100).
  { unfold percentA, powerA, powerB. rewrite Ha, Hd. simpl statsOf.
    rewrite <- !powerScore_stats. cbv zeta.
    pose proof (powerScore_range (name agg)). pose proof (powerScore_range (name def)).
    destruct (Z.ltb_spec 0 (getPowerScore (name agg) + getPowerScore (name def))); [| lia].
    rewrite chanceOf_ratio. unfold alliesScoreOf. simpl fold_left.
    rewrite inject_Z_plus.
    assert (E0 : inject_Z (getPowerScore (name agg)) + inject_Z (getPowerScore (name def)) + 0
                 == inject_Z (getPowerScore (name agg)) + inject_Z (getPowerScore (name def)))
      by ring.
    now rewrite E0. }
  split; [exact E |].
  rewrite E.
  destruct (chanceOf_bounds (name agg) (name def) []) as [H0 H1].
  lra.
Qed.

End Chance.

Lemma dominance_bar_matches_chance_witness :
  0 < HudWidgets.percentA (App.warState Sample.coalition)
  /\ HudWidgets.percentA (App.warState Sample.coalition) < 100.
Proof.
  apply (dominance_bar_matches_chance (App.warState Sample.coalition)
           Sample.brazil Sample.chile eq_refl eq_refl).
Defined.

(** ** The charts *)

Section Charts.
Import Str Types GeminiService HudWidgets.

Lemma orZero_field (field : CountryStats -> Z) (st : CountryStats) :
  orZero field (Some st) = field st.
Proof.
  unfold orZero. destruct (Z.eqb_spec (field st) 0) as [E | E]; [now rewrite E | reflexivity].
Qed.

(** The six figures of a faction on the radar. *)
Lemma radar_figure (field : CountryStats -> Z) (name : string) :
  In field [infantry; armor; air; cyber; logistics; intel] ->
  (8 <= field (getCountryStats name) <= 99)%Z.
Proof.
  intros Hin.
  destruct (getCountryStats_bounds name) as (Hi & _ & _ & Hall & _).
  rewrite Forall_forall in Hall.
  destruct Hin as [<- | Hin]; [lia |].
  apply Hall. revert Hin. generalize (getCountryStats name). intros st Hin.
  repeat (destruct Hin as [<- | Hin]; [simpl; tauto |]). destruct Hin.
Qed.

Lemma orZero_bound (field : CountryStats -> Z) (slot : option CountryFeature) :
  In field [infantry; armor; air; cyber; logistics; intel] ->
  match slot with
  | Some _ => (8 <= orZero field (statsOf slot) <= 99)%Z
  | None => orZero field (statsOf slot) = 0%Z
  end.
Proof.
  intros Hin. destruct slot as [c |]; cbn [statsOf]; [| reflexivity].
  rewrite orZero_field. now apply radar_figure.
Qed.

(** X5. The radar chart has six rows with full mark 100; in every row the
    figure of a faction that is set is between 8 and 99, and the figure of a
    faction that is not set is 0. *)
Theorem radar_rows_within_full_mark (w : WarState) :
  List.length (radarData w) = 6%nat
  /\ Forall (fun row =>
               fullMark row = 100%Z
               /\ match aggressor w with
                  | Some _ => (8 <= A row <= 99)%Z
                  | None => A row = 0%Z
                  end
               /\ match defender w with
                  | Some _ => (8 <= B row <= 99)%Z
                  | None => B row = 0%Z
                  end) (radarData w).
Proof.
  split; [reflexivity |].
  unfold radarData. cbv zeta.
  repeat (apply Forall_cons;
          [cbn [A B fullMark]; split; [reflexivity |];
           split; apply orZero_bound; simpl; tauto |]).
  constructor.
Qed.

Lemma floor_scaled (r : Q) (n : Z) :
  0 <= r -> r < 1 -> (0 < n)%Z -> (0 <= Qfloor (r * inject_Z n) < n)%Z.
Proof.
  intros H0 H1 Hn.
  assert (Hq : 0 < inject_Z n) by (change 0 with (inject_Z 0); rewrite <- Zlt_Qlt; lia).
  split.
  - change 0%Z with (Qfloor (inject_Z 0)) at 1. apply Qfloor_resp_le.
    change (inject_Z 0) with 0. apply Qmult_le_0_compat; lra.
  - rewrite Zlt_Qlt. eapply Qle_lt_trans; [apply Qfloor_le |].
    rewrite <- (Qmult_1_l (inject_Z n)) at 2. apply Qmult_lt_compat_r; assumption.
Qed.

Lemma noiseFrom_spec (n : nat) :
  forall (i : nat) (g : Rng.Stream),
    (forall k, 0 <= g k /\ g k < 1) ->
    map barName (Rng.eval (noiseFrom n i) g) = map (fun j => showZ (Z.of_nat j)) (seq i n)
    /\ Forall (fun b => 20 <= value b <= 69)%Z (Rng.eval (noiseFrom n i) g).
Proof.
  induction n as [| n IH]; intros i g Hg.
  - split; [reflexivity | constructor].
  - simpl. unfold Rng.eval, Rng.bind, Rng.random.
    specialize (IH (S i) (fun k => g (S k)) (fun k => Hg (S k))).
    unfold Rng.eval in IH.
    destruct (noiseFrom n (S i) (fun k => g (S k))) as [rest g'] eqn:E.
    unfold Rng.ret. cbn [fst snd map barName seq] in *. destruct IH as [IHn IHv]. split.
    + now rewrite IHn.
    + constructor; [| exact IHv]. cbn [value].
      destruct (Hg 0%nat) as [H0 H1].
      pose proof (floor_scaled (g 0%nat) 50 H0 H1 eq_refl) as Hf.
      simpl in Hf. lia.
Qed.

(** X6. For draws of [Math.random] in [0, 1), the noise chart has the twenty
    bars named 0 to 19, each with a value between 20 and 69. *)
Theorem intensity_bars_in_range (g : Rng.Stream) :
  (forall k, 0 <= g k /\ g k < 1) ->
  map barName (Rng.eval intensityData g) = map (fun j => showZ (Z.of_nat j)) (seq 0 20)
  /\ Forall (fun b => 20 <= value b <= 69)%Z (Rng.eval intensityData g).
Proof.
  apply noiseFrom_spec.
Qed.

End Charts.

Lemma thirds_in_range (k : nat) : 0 <= Sample2.thirds k /\ Sample2.thirds k < 1.
Proof.
  unfold Sample2.thirds. destruct (Nat.even k); split; reflexivity || discriminate.
Qed.

Lemma intensity_bars_in_range_witness :
  Forall (fun b => 20 <= HudWidgets.value b <= 69)%Z
         (Rng.eval HudWidgets.intensityData Sample2.thirds).
Proof.
  apply (intensity_bars_in_range Sample2.thirds). exact thirds_in_range.
Defined.

(** ** The text of the report *)

Section Report.
Import Str GeminiService.

Lemma pick_in (arr : list string) (r : Q) :
  arr <> [] -> 0 <= r -> r < 1 -> In (pick arr r) arr.
Proof.
  intros Hne H0 H1. unfold pick. apply nth_In.
  assert (Hlen : (0 < Z.of_nat (List.length arr))%Z).
  { destruct arr; [contradiction | simpl; lia]. }
  pose proof (floor_scaled r _ H0 H1 Hlen) as Hf.
  set (f := Qfloor _) in *. clearbody f. lia.
Qed.

Lemma winProb_range (r : Q) : 0 <= r -> r < 1 -> (55 <= Qfloor (55 + r * 40) <= 94)%Z.
Proof.
  intros H0 H1. split.
  - rewrite <- (Qfloor_Z 55) at 1. apply Qfloor_resp_le.
    change (inject_Z 55) with 55. lra.
  - assert (H : (Qfloor (55 + r * 40) < 95)%Z).
    { rewrite Zlt_Qlt. eapply Qle_lt_trans; [apply Qfloor_le |].
      change (inject_Z 95) with 95. lra. }
    lia.
Qed.

(** X7. For draws of [Math.random] in [0, 1), the fallback report is the
    trimmed template filled with a winner and a loser that are the two
    countries in one order or the other, an event of the event table, a
    battle type of the battle-type table (never an index past a table), and
    a confidence from 55 to 95.  (On exact numbers the confidence stays
    below 95; the bound 95 is the one that also covers the sum [55 + r * 40]
    rounded up to 95 for the largest draws.) *)
Theorem mock_log_fields_in_range (countryA countryB : string) (allies : list string)
    (g : Rng.Stream) :
  (forall k, (k < 4)%nat -> 0 <= g k /\ g k < 1) ->
  exists (winner loser event battleType : string) (isCloseMatch : bool) (winProb : Z),
    ((winner = countryA /\ loser = countryB) \/ (winner = countryB /\ loser = countryA))
    /\ In event EXTERNAL_EVENTS
    /\ In battleType BATTLE_TYPES
    /\ (55 <= winProb <= 95)%Z
    /\ Rng.eval (generateMockWarLog countryA countryB allies) g
       = trim (report countryA countryB allies winner loser isCloseMatch
                      event battleType winProb).
Proof.
  intros Hg. rewrite generateMockWarLog_eval. cbv zeta.
  set (winner := if Num.ltb (g 0%nat) (chanceOf countryA countryB allies)
                 then countryA else countryB).
  exists winner, (if String.eqb winner countryA then countryB else countryA),
    (pick EXTERNAL_EVENTS (g 1%nat)), (pick BATTLE_TYPES (g 2%nat)),
    (Num.ltb (Num.abs (chanceOf countryA countryB allies - (1 # 2))) (1 # 10)),
    (Qfloor (55 + g 3%nat * 40)).
  repeat split.
  - destruct (String.eqb_spec winner countryA) as [E | E].
    + left. now split.
    + right. split; [| reflexivity]. subst winner.
      destruct (Num.ltb _ _); [contradiction | reflexivity].
  - apply pick_in; [discriminate | apply Hg; lia | apply Hg; lia].
  - apply pick_in; [discriminate | apply Hg; lia | apply Hg; lia].
  - apply winProb_range; apply Hg; lia.
  - assert (H94 : (Qfloor (55 + g 3%nat * 40) <= 94)%Z)
      by (apply winProb_range; apply Hg; lia).
    lia.
Qed.

Lemma append_assoc (a b c : string) : ((a ++ b) ++ c)%string = (a ++ (b ++ c))%string.
Proof.
  induction a as [| x a IH]; simpl; [reflexivity | now rewrite IH].
Qed.

Lemma trimEnd_app (a b : string) :
  trimEnd b <> EmptyString -> trimEnd (a ++ b)%string = (a ++ trimEnd b)%string.
Proof.
  intros Hb. induction a as [| x a IH]; simpl.
  - reflexivity.
  - rewrite IH. destruct (a ++ trimEnd b)%string eqn:E; [| reflexivity].
    destruct a; simpl in E; [contradiction | discriminate].
Qed.

Lemma trimStart_frame (rest : string) :
  trimStart (nl ++ "*** SIMULATION REPORT (OFFLINE PROTOCOL) ***" ++ rest)%string
  = ("*** SIMULATION REPORT (OFFLINE PROTOCOL) ***" ++ rest)%string.
Proof. reflexivity. Qed.

Lemma trimEnd_frame :
  trimEnd (" is forced to retreat to secondary defensive lines." ++ nl ++ "  ")%string
  = " is forced to retreat to secondary defensive lines."%string.
Proof. reflexivity. Qed.

(** X8. Whatever the names and the selected fields are, [trim] takes from
    the template exactly its first line break and its final line break and
    two spaces: white space inside or around the names is kept. *)
Theorem trim_takes_only_the_frame (countryA countryB : string) (allies : list string)
    (winner loser : string) (isCloseMatch : bool) (event battleType : string)
    (winProb : Z) :
  report countryA countryB allies winner loser isCloseMatch event battleType winProb
  = (nl ++ trim (report countryA countryB allies winner loser isCloseMatch
                        event battleType winProb) ++ nl ++ "  ")%string.
Proof.
  unfold trim, report. cbv zeta.
  rewrite trimStart_frame.
  set (tail := (" is forced to retreat to secondary defensive lines." ++ nl ++ "  ")%string).
  rewrite <- !append_assoc.
  rewrite trimEnd_app by (unfold tail; rewrite trimEnd_frame; discriminate).
  unfold tail. rewrite trimEnd_frame, !append_assoc. reflexivity.
Qed.

End Report.

Lemma mock_log_fields_in_range_witness :
  exists (winner loser event battleType : string) (isCloseMatch : bool) (winProb : Z),
    ((winner = "Brazil" /\ loser = "Chile") \/ (winner = "Chile" /\ loser = "Brazil"))
    /\ In event GeminiService.EXTERNAL_EVENTS
    /\ In battleType GeminiService.BATTLE_TYPES
    /\ (55 <= winProb <= 95)%Z
    /\ Rng.eval (GeminiService.generateMockWarLog "Brazil" "Chile" ["Peru"]) Sample2.thirds
       = Str.trim (GeminiService.report "Brazil" "Chile" ["Peru"] winner loser isCloseMatch
                     event battleType winProb).
Proof.
  apply (mock_log_fields_in_range "Brazil" "Chile" ["Peru"] Sample2.thirds).
  intros k _. apply thirds_in_range.
Defined.

(** ** More on the selection *)

Section Coalition.
Import Types App Facts.

Lemma filter_fresh (c : CountryFeature) (allies : list CountryFeature) :
  isAllyOf allies c = false ->
  filter (fun a => negb (id_eqb (id a) (id c))) allies = allies.
Proof.
  intros Hf. induction allies as [| a allies IH]; simpl; [reflexivity |].
  simpl in Hf. apply orb_false_iff in Hf. destruct Hf as [Ha Hrest].
  rewrite Ha. simpl. now rewrite IH.
Qed.

Lemma filter_ids_NoDup (c : CountryFeature) (allies : list CountryFeature) :
  NoDup (map id allies) ->
  NoDup (map id (filter (fun a => negb (id_eqb (id a) (id c))) allies)).
Proof.
  induction allies as [| a allies IH]; simpl; intros Hnd; [constructor |].
  inversion Hnd as [| ? ? Hnotin Hrest]; subst.
  destruct (negb (id_eqb (id a) (id c))); simpl; [| now apply IH].
  constructor; [| now apply IH].
  intros Hin. apply in_ids_filter in Hin. now destruct Hin.
Qed.

Lemma NoDup_snoc (i : FeatureId) (l : list FeatureId) :
  NoDup l -> ~ In i l -> NoDup (l ++ [i]).
Proof.
  intros Hl Hi. apply (NoDup_Add (a := i) (l := l)).
  - rewrite <- (app_nil_r l) at 1. apply Add_app.
  - now split.
Qed.

Lemma handleCountrySelect_distinct (c : CountryFeature) (s : AppState) :
  alliesDistinct s -> alliesDistinct (handleCountrySelect c s).
Proof.
  unfold alliesDistinct, allyIds, handleCountrySelect. intros Hnd.
  destruct (isSelectingAlly s).
  - destruct (slotIs (aggressor (warState s)) c); simpl; [exact Hnd |].
    destruct (slotIs (defender (warState s)) c); simpl; [exact Hnd |].
    destruct (isAllyOf (defenderAllies (warState s)) c) eqn:El; simpl; [exact Hnd |].
    rewrite map_app. simpl. apply isAllyOf_false in El.
    now apply NoDup_snoc.
  - destruct (slotIs (aggressor (warState s)) c); simpl; [exact Hnd |].
    destruct (slotIs (defender (warState s)) c); simpl; [constructor |].
    destruct (isAllyOf (defenderAllies (warState s)) c); simpl.
    { now apply filter_ids_NoDup. }
    destruct (isEmpty (aggressor (warState s))); simpl; [exact Hnd |].
    destruct (isEmpty (defender (warState s))); simpl; [exact Hnd | constructor].
Qed.

Lemma handleCountrySelect_backed (c : CountryFeature) (s : AppState) :
  coalitionBacked s -> coalitionBacked (handleCountrySelect c s).
Proof.
  unfold coalitionBacked, handleCountrySelect. intros Hb.
  destruct (isSelectingAlly s) eqn:Emode.
  - destruct (defender (warState s)) as [d |] eqn:Ed.
    + destruct (slotIs (aggressor (warState s)) c); simpl; [now rewrite Ed |].
      destruct (id_eqb (id d) (id c)); simpl; [now rewrite Ed |].
      destruct (isAllyOf (defenderAllies (warState s)) c); simpl; now rewrite ?Ed.
    + destruct Hb as [_ Hoff]. discriminate.
  - destruct (slotIs (aggressor (warState s)) c); simpl.
    { destruct (defender (warState s)); [trivial | now destruct Hb]. }
    destruct (slotIs (defender (warState s)) c) eqn:Esd; simpl; [now split |].
    destruct (isAllyOf (defenderAllies (warState s)) c) eqn:El; simpl.
    { destruct (defender (warState s)); [trivial |].
      destruct Hb as [Hnil _]. rewrite Hnil in El. discriminate. }
    destruct (isEmpty (aggressor (warState s))); simpl.
    { destruct (defender (warState s)); [trivial | now destruct Hb]. }
    destruct (isEmpty (defender (warState s))); simpl; [trivial | now split].
Qed.

Lemma step_distinct_backed (s : AppState) (e : Event) :
  alliesDistinct s /\ coalitionBacked s ->
  alliesDistinct (step s e) /\ coalitionBacked (step s e).
Proof.
  intros [Hd Hb]. destruct e as [c | | | analysis]; simpl.
  - split; [now apply handleCountrySelect_distinct | now apply handleCountrySelect_backed].
  - unfold alliesDistinct, coalitionBacked, toggleAllyButton in *.
    destruct (defender (warState s)) eqn:Ed; simpl; [| now rewrite Ed].
    rewrite Ed. now split.
  - unfold alliesDistinct, coalitionBacked in *.
    rewrite beginWarSimulation_warState. split; [exact Hd |].
    destruct (defender (warState s)); [trivial |].
    unfold beginWarSimulation.
    destruct (aggressor (warState s)), (defender (warState s)), (isSimulating s);
      exact Hb.
  - split; [exact Hd | exact Hb].
Qed.

Lemma run_distinct_backed (es : list Event) :
  forall s, alliesDistinct s /\ coalitionBacked s ->
            alliesDistinct (run s es) /\ coalitionBacked (run s es).
Proof.
  induction es as [| e es IH]; intros s Hs; simpl; [exact Hs |].
  apply IH, step_distinct_backed, Hs.
Qed.

Lemma initial_distinct_backed (logs0 : list SystemLog) :
  alliesDistinct (initial logs0) /\ coalitionBacked (initial logs0).
Proof.
  split; [constructor | now split].
Qed.

(** X9. In every state reached from the empty selection, the allies have
    pairwise different identifiers, and without a defender there is neither
    an ally nor a pending ally selection. *)
Theorem allies_distinct_and_backed (logs0 : list SystemLog) (es : list Event) :
  alliesDistinct (run (initial logs0) es) /\ coalitionBacked (run (initial logs0) es).
Proof.
  apply run_distinct_backed, initial_distinct_backed.
Qed.

(** X10. Calling an ally and dismissing it again is a round trip: in ally
    mode a click on a territory that has no role appends it as the last ally
    and leaves the mode, and a second click on it takes it out again, so the
    selection is the one before the two clicks. *)
Theorem ally_added_then_removed (c : CountryFeature) (s : AppState) :
  isSelectingAlly s = true ->
  slotIs (aggressor (warState s)) c = false ->
  slotIs (defender (warState s)) c = false ->
  isAllyOf (defenderAllies (warState s)) c = false ->
  defenderAllies (warState (handleCountrySelect c s)) = defenderAllies (warState s) ++ [c]
  /\ isSelectingAlly (handleCountrySelect c s) = false
  /\ warState (handleCountrySelect c (handleCountrySelect c s)) = warState s.
Proof.
  intros Hmode Ha Hd Hl.
  assert (H1 : warState (handleCountrySelect c s)
               = {| aggressor := aggressor (warState s); defender := defender (warState s);
                    defenderAllies := defenderAllies (warState s) ++ [c] |}).
  { unfold handleCountrySelect. now rewrite Hmode, Ha, Hd, Hl. }
  assert (H2 : isSelectingAlly (handleCountrySelect c s) = false).
  { unfold handleCountrySelect. now rewrite Hmode, Ha, Hd, Hl. }
  split; [now rewrite H1 |]. split; [exact H2 |].
  unfold handleCountrySelect at 1. rewrite H2, H1. cbn [aggressor defender defenderAllies].
  rewrite Ha, Hd.
  assert (Hin : isAllyOf (defenderAllies (warState s) ++ [c]) c = true).
  { apply isAllyOf_true. rewrite map_app. apply in_or_app. right. now left. }
  rewrite Hin. cbn [warState setWarState setReconImage].
  rewrite filter_app, (filter_fresh c _ Hl). simpl.
  rewrite (proj2 (id_eqb_eq (id c) (id c)) eq_refl). simpl.
  rewrite app_nil_r. now destruct (warState s).
Qed.

Lemma ally_added_then_removed_witness :
  warState (handleCountrySelect Sample.peru
              (handleCountrySelect Sample.peru
                 (run (App.initial [])
                    [Click Sample.brazil; Click Sample.chile; ToggleAlly])))
  = {| aggressor := Some Sample.brazil; defender := Some Sample.chile;
       defenderAllies := [] |}.
Proof.
  apply (ally_added_then_removed Sample.peru
           (run (App.initial []) [Click Sample.brazil; Click Sample.chile; ToggleAlly]));
    reflexivity.
Defined.

Lemma filter_one (c : CountryFeature) (allies : list CountryFeature) :
  NoDup (map id allies) ->
  isAllyOf allies c = true ->
  exists (before after : list CountryFeature) (a : CountryFeature),
    allies = before ++ a :: after
    /\ id a = id c
    /\ filter (fun x => negb (id_eqb (id x) (id c))) allies = before ++ after.
Proof.
  induction allies as [| x allies IH]; intros Hnd Hin; [discriminate |].
  simpl in Hnd. inversion Hnd as [| ? ? Hnotin Hrest]; subst.
  simpl in Hin. simpl.
  destruct (id_eqb (id x) (id c)) eqn:Ex.
  - exists [], allies, x. apply id_eqb_eq in Ex. simpl.
    repeat split; [exact Ex |].
    apply filter_fresh. apply isAllyOf_false. now rewrite <- Ex.
  - simpl in Hin. destruct (IH Hrest Hin) as (before & after & a & -> & Ha & Hf).
    exists (x :: before), after, a. simpl. now rewrite Hf.
Qed.

(** X11. In a state reached from the empty selection with ally selection
    off, a click on an ally takes exactly that ally out of the list: the
    other allies stay, in their order, and aggressor and defender are as
    before. *)
Theorem ally_click_removes_exactly_one (logs0 : list SystemLog) (es : list Event)
    (c : CountryFeature) :
  let s := run (initial logs0) es in
  isSelectingAlly s = false ->
  isAllyOf (defenderAllies (warState s)) c = true ->
  exists (before after : list CountryFeature) (a : CountryFeature),
    defenderAllies (warState s) = before ++ a :: after
    /\ id a = id c
    /\ warState (handleCountrySelect c s)
       = {| aggressor := aggressor (warState s); defender := defender (warState s);
            defenderAllies := before ++ after |}.
Proof.
  intros s Hmode Hin.
  destruct (run_distinct_backed es (initial logs0) (initial_distinct_backed logs0))
    as [Hnd _].
  destruct (run_disjoint es (initial logs0) (initial_disjoint logs0)) as (_ & Haa & Hda).
  fold s in Hnd, Haa, Hda.
  destruct (filter_one c _ Hnd Hin) as (before & after & a & Hall & Ha & Hf).
  exists before, after, a. split; [exact Hall |]. split; [exact Ha |].
  assert (Hin' := Hin). apply isAllyOf_true in Hin'.
  assert (Hagg : slotIs (aggressor (warState s)) c = false).
  { apply slotIs_false. intros H. exact (Haa _ H Hin'). }
  assert (Hdef : slotIs (defender (warState s)) c = false).
  { apply slotIs_false. intros H. exact (Hda _ H Hin'). }
  unfold handleCountrySelect. rewrite Hmode, Hagg, Hdef, Hin. simpl. now rewrite Hf.
Qed.

Lemma ally_click_removes_exactly_one_witness :
  exists (before after : list CountryFeature) (a : CountryFeature),
    defenderAllies (warState Sample.coalition) = before ++ a :: after
    /\ id a = id Sample.peru
    /\ warState (handleCountrySelect Sample.peru Sample.coalition)
       = {| aggressor := Some Sample.brazil; defender := Some Sample.chile;
            defenderAllies := before ++ after |}.
Proof.
  apply (ally_click_removes_exactly_one []
           [Click Sample.brazil; Click Sample.chile; ToggleAlly; Click Sample.peru]
           Sample.peru); reflexivity.
Defined.

(** X12. Every click on a territory appends exactly one line to the log,
    keeps the lines before it, closes the reconnaissance image and leaves the
    simulation flag alone. *)
Theorem click_logs_one_line (c : CountryFeature) (s : AppState) :
  (exists line : SystemLog, logs (handleCountrySelect c s) = logs s ++ [line])
  /\ reconImage (handleCountrySelect c s) = None
  /\ isSimulating (handleCountrySelect c s) = isSimulating s.
Proof.
  unfold handleCountrySelect.
  repeat match goal with
         | |- context [if ?b then _ else _] => destruct b
         end; (split; [eexists; reflexivity | split; reflexivity]).
Qed.

Lemma beginWarSimulation_twice (s : AppState) :
  beginWarSimulation (beginWarSimulation s) = beginWarSimulation s.
Proof.
  unfold beginWarSimulation at 2.
  destruct (aggressor (warState s)) as [a |] eqn:Ea;
    [| unfold beginWarSimulation; now rewrite Ea].
  destruct (defender (warState s)) as [d |] eqn:Ed;
    [| unfold beginWarSimulation; now rewrite Ea, Ed].
  destruct (isSimulating s) eqn:Es;
    [unfold beginWarSimulation; now rewrite Ea, Ed, Es |].
  unfold beginWarSimulation.
  cbn [warState isSimulating logs setIsSimulating addLog].
  rewrite ?Ea, ?Ed, ?Es. reflexivity.
Qed.

(** X13. Starting a simulation needs both factions and no simulation under
    way: a second start while one runs changes nothing.  A whole run of
    [triggerWarSimulation] with both factions set leaves the selection as it
    is, ends with the simulation flag off, and appends three lines to the
    log, the last of which is the combat report: the text of the remote model
    when it answered with a non-empty text. *)
Theorem simulation_run_keeps_selection (response : option string) (s : AppState)
    (agg def : CountryFeature) (g : Rng.Stream) :
  aggressor (warState s) = Some agg ->
  defender (warState s) = Some def ->
  isSimulating s = false ->
  let s' := Rng.eval (triggerWarSimulation response s) g in
  beginWarSimulation (beginWarSimulation s) = beginWarSimulation s
  /\ isSimulating (beginWarSimulation s) = true
  /\ warState s' = warState s
  /\ isSimulating s' = false
  /\ (exists l1 l2 analysis,
        logs s' = logs s ++ [l1; l2; {| message := analysis; type := COMBAT |}]
        /\ forall c r, response = Some (String c r) -> analysis = String c r).
Proof.
  intros Ha Hd Hs. cbv zeta.
  split; [apply beginWarSimulation_twice |].
  split; [unfold beginWarSimulation; now rewrite Ha, Hd, Hs |].
  unfold triggerWarSimulation. rewrite Ha, Hd, Hs.
  unfold Rng.eval, Rng.bind.
  destruct (GeminiService.simulateWarScenario response (name agg) (name def)
              (map name (defenderAllies (warState s))) g) as [analysis g'] eqn:E.
  unfold Rng.ret. cbn [fst].
  unfold endWarSimulation, beginWarSimulation. rewrite Ha, Hd, Hs.
  cbn [warState isSimulating logs setIsSimulating addLog].
  split; [reflexivity |]. split; [reflexivity |].
  eexists _, _, analysis. split.
  - rewrite <- !app_assoc. reflexivity.
  - intros c r ->. unfold GeminiService.simulateWarScenario, Rng.ret in E.
    now inversion E.
Qed.

Lemma simulation_run_keeps_selection_witness :
  warState (Rng.eval (triggerWarSimulation None Sample.coalition) Sample2.thirds)
  = warState Sample.coalition
  /\ isSimulating (Rng.eval (triggerWarSimulation None Sample.coalition) Sample2.thirds)
     = false
  /\ exists l1 l2,
       logs (Rng.eval (triggerWarSimulation (Some "Ceasefire.") Sample.coalition)
               Sample2.thirds)
       = logs Sample.coalition ++ [l1; l2; {| message := "Ceasefire."; type := COMBAT |}].
Proof.
  destruct (simulation_run_keeps_selection None Sample.coalition Sample.brazil Sample.chile
              Sample2.thirds eq_refl eq_refl eq_refl) as (_ & _ & Hw & Hs & _).
  split; [exact Hw |]. split; [exact Hs |].
  destruct (simulation_run_keeps_selection (Some "Ceasefire.") Sample.coalition
              Sample.brazil Sample.chile Sample2.thirds eq_refl eq_refl eq_refl)
    as (_ & _ & _ & _ & l1 & l2 & analysis & Hlogs & Htext).
  exists l1, l2. rewrite Hlogs. now rewrite (Htext _ _ eq_refl).
Defined.

End Coalition.

(** ** Pointer gestures *)

Section Gestures.
Import Types HoloGlobe.
Context {d3 : D3}.
Variable canvas : Canvas.
Variable features : list CountryFeature.

Lemma same_spot_is_click (e : Point) (g : Globe) :
  isClick e (handleMouseDown e g) = true.
Proof.
  unfold isClick, Num.sqrt_ltb. apply andb_true_iff. split.
  - reflexivity.
  - apply ltb_lt. unfold dragDist2, handleMouseDown, Num.sq. simpl.
    assert (E : (fst e - fst e) * (fst e - fst e) + (snd e - snd e) * (snd e - snd e) == 0)
      by ring.
    rewrite E. reflexivity.
Qed.

(** X14. A press and a release at the same position are always a click: the
    territory handed to the selection callback is the result of hit-testing
    that position, and afterwards the drag is over, the rotation is the one
    before the press and the inertia is zero, so a click stops the spin. *)
Theorem press_release_is_click (e : Point) (g : Globe) :
  snd (handleMouseUp canvas features e (handleMouseDown e g))
  = match projectionInvert (projected g) (canvasPoint canvas e) with
    | Some inverted => hitTest features inverted
    | None => None
    end
  /\ isDraggingRef (fst (handleMouseUp canvas features e (handleMouseDown e g))) = false
  /\ rotationRef (fst (handleMouseUp canvas features e (handleMouseDown e g)))
     = rotationRef g
  /\ velocityRef (fst (handleMouseUp canvas features e (handleMouseDown e g))) = (0, 0).
Proof.
  unfold handleMouseUp. rewrite same_spot_is_click.
  cbn [isDraggingRef handleMouseDown projected].
  destruct (projectionInvert (projected g) (canvasPoint canvas e)); now repeat split.
Qed.

(** The moves of a drag, one after the other. *)
Lemma drag_moves (moves : list Point) :
  forall g : Globe,
    isDraggingRef g = true ->
    let g' := fold_left (fun g e => handleMouseMove e g) moves g in
    let final := last moves (lastMouseRef g) in
    fst (rotationRef g') == fst (rotationRef g) + (fst final - fst (lastMouseRef g)) * 0.5
    /\ snd (rotationRef g') == snd (rotationRef g) - (snd final - snd (lastMouseRef g)) * 0.5
    /\ lastMouseRef g' = final
    /\ startDragRef g' = startDragRef g
    /\ isDraggingRef g' = true.
Proof.
  induction moves as [| e moves IH]; intros g Hdrag; cbv zeta.
  - simpl. repeat split; try reflexivity; try assumption; ring.
  - assert (Hstep : handleMouseMove e g
                    = {| rotationRef :=
                           (fst (rotationRef g) + (fst e - fst (lastMouseRef g)) * 0.5,
                            snd (rotationRef g) - (snd e - snd (lastMouseRef g)) * 0.5);
                         velocityRef := ((fst e - fst (lastMouseRef g)) * 0.5,
                                         - (snd e - snd (lastMouseRef g)) * 0.5);
                         isDraggingRef := true; lastMouseRef := e;
                         startDragRef := startDragRef g; projected := projected g;
                         particles := particles g; missiles := missiles g;
                         lastTime := lastTime g |}).
    { unfold handleMouseMove. now rewrite Hdrag. }
    specialize (IH (handleMouseMove e g)).
    rewrite Hstep in IH. cbn [isDraggingRef rotationRef lastMouseRef startDragRef fst snd] in IH.
    specialize (IH eq_refl). cbv zeta in IH.
    destruct IH as (Hx & Hy & Hl & Hs & Hd).
    assert (Hlast : last (e :: moves) (lastMouseRef g) = last moves e).
    { destruct moves; [reflexivity |]. simpl. clear. 
      generalize p. induction moves as [| q moves IHm]; intros p0; simpl; [reflexivity |].
      apply IHm. }
    cbn [fold_left]. rewrite Hstep, Hlast.
    repeat split; try assumption.
    + rewrite Hx. ring.
    + rewrite Hy. ring.
Qed.

(** X15. The moves of a drag add up: after a press at a position and any
    moves, the rotation differs from the one at the press by half the
    displacement of the pointer from the press to its last position, whatever
    the path in between (the tilt with the opposite sign); pointer moves
    without a press leave the state alone. *)
Theorem drag_depends_on_endpoints (start : Point) (moves : list Point) (g : Globe) :
  (let g' := fold_left (fun g e => handleMouseMove e g) moves (handleMouseDown start g) in
   let final := last moves start in
   fst (rotationRef g') == fst (rotationRef g) + (fst final - fst start) * 0.5
   /\ snd (rotationRef g') == snd (rotationRef g) - (snd final - snd start) * 0.5
   /\ lastMouseRef g' = final
   /\ startDragRef g' = start)
  /\ (isDraggingRef g = false ->
      fold_left (fun g e => handleMouseMove e g) moves g = g).
Proof.
  split.
  - destruct (drag_moves moves (handleMouseDown start g) eq_refl)
      as (Hx & Hy & Hl & Hs & _).
    cbv zeta. repeat split; assumption.
  - intros Hno. induction moves as [| e moves IH]; simpl; [reflexivity |].
    unfold handleMouseMove at 2. rewrite Hno. exact IH.
Qed.

Lemma setDimension_whole (default w : Z) (v : Q) :
  v == inject_Z w -> (0 <= w <= 2147483647)%Z -> setDimension default v = w.
Proof.
  intros Hv Hw. unfold setDimension.
  assert (Ht : Num.trunc v = w).
  { rewrite trunc_floor.
    - rewrite (Qfloor_comp _ _ Hv). apply Qfloor_Z.
    - rewrite Hv. change 0 with (inject_Z 0). rewrite <- Zle_Qle. lia. }
  rewrite Ht, Z.mod_small by lia.
  destruct (Z.leb_spec w 2147483647); [reflexivity | lia].
Qed.

(** X16. When the canvas is laid out at its own size (the bounding rectangle
    has the width and the height of the canvas) and the width and the height
    times the device pixel ratio are whole numbers within the range of the
    canvas attributes (as for an integral ratio), nothing is lost in
    [canvas.width] and [canvas.height], the scale factors cancel, and the
    canvas position of a pointer event is its offset from the corner of the
    rectangle. *)
Theorem canvas_point_is_offset (e : Point) (w h : Z) :
  rectWidth canvas = width canvas ->
  rectHeight canvas = height canvas ->
  ~ width canvas == 0 -> ~ height canvas == 0 -> ~ dpr canvas == 0 ->
  width canvas * dpr canvas == inject_Z w -> (0 <= w <= 2147483647)%Z ->
  height canvas * dpr canvas == inject_Z h -> (0 <= h <= 2147483647)%Z ->
  fst (canvasPoint canvas e) == fst e - rectLeft canvas
  /\ snd (canvasPoint canvas e) == snd e - rectTop canvas.
Proof.
  intros Hw Hh Hw0 Hh0 Hd0 Ew Rw Eh Rh. unfold canvasPoint, canvasWidth, canvasHeight.
  rewrite (setDimension_whole 300 w _ Ew Rw), (setDimension_whole 150 h _ Eh Rh).
  rewrite Hw, Hh. cbn [fst snd].
  assert (Fw : inject_Z w / width canvas == dpr canvas) by (rewrite <- Ew; now field).
  assert (Fh : inject_Z h / height canvas == dpr canvas) by (rewrite <- Eh; now field).
  rewrite Fw, Fh. split; now field.
Qed.

End Gestures.

Lemma drag_depends_on_endpoints_witness :
  fold_left (fun g e => HoloGlobe.handleMouseMove e g) [(410, 290); (420, 310)]
            (HoloGlobe.globe Sample.system0)
  = HoloGlobe.globe Sample.system0.
Proof.
  apply (drag_depends_on_endpoints (400, 300) [(410, 290); (420, 310)]
           (HoloGlobe.globe Sample.system0)).
  reflexivity.
Defined.

Lemma canvas_point_is_offset_witness :
  fst (HoloGlobe.canvasPoint Sample.canvas (328, 338)) == 328 - 0
  /\ snd (HoloGlobe.canvasPoint Sample.canvas (328, 338)) == 338 - 0.
Proof.
  apply (canvas_point_is_offset Sample.canvas (328, 338) 1600 1200);
    try reflexivity; try (intros H; discriminate H); lia.
Defined.

(** ** Inertia *)

Section Inertia.
Import HoloGlobe.

Lemma abs_lt (x b : Q) : Num.abs x < b <-> - b < x /\ x < b.
Proof.
  unfold Num.abs. destruct (Qle_bool 0 x) eqn:E.
  - apply Qle_bool_iff in E. split; [intros H; split; lra | intros [_ H]; exact H].
  - apply leb_gt in E. split; [intros H; split; lra | intros [H _]; lra].
Qed.

(** The spin velocity is in the slow regime when friction has brought it
    below the idle rate. *)
Lemma physics_slow (g : Globe) :
  isDraggingRef g = false ->
  Num.abs (fst (velocityRef g) * 0.92) < 0.05 ->
  isDraggingRef (physics g) = false
  /\ Num.abs (fst (velocityRef (physics g)) * 0.92) < 0.05
  /\ fst (velocityRef (physics g)) - (5 # 172)
     == 0.828 * (fst (velocityRef g) - (5 # 172))
  /\ snd (velocityRef (physics g)) == 0.92 * snd (velocityRef g).
Proof.
  intros Hdrag Hslow. unfold physics. rewrite Hdrag.
  rewrite (proj2 (ltb_lt _ _) Hslow).
  cbn [isDraggingRef velocityRef fst snd].
  apply abs_lt in Hslow. destruct Hslow as [Hlo Hhi].
  split; [reflexivity |]. split; [apply abs_lt; split; lra |].
  split; [| ring].
  field.
Qed.

Lemma physics_iter_slow (n : nat) (g : Globe) :
  isDraggingRef g = false ->
  Num.abs (fst (velocityRef g) * 0.92) < 0.05 ->
  isDraggingRef (Nat.iter n physics g) = false
  /\ Num.abs (fst (velocityRef (Nat.iter n physics g)) * 0.92) < 0.05
  /\ fst (velocityRef (Nat.iter n physics g)) - (5 # 172)
     == 0.828 ^ Z.of_nat n * (fst (velocityRef g) - (5 # 172))
  /\ snd (velocityRef (Nat.iter n physics g)) == 0.92 ^ Z.of_nat n * snd (velocityRef g).
Proof.
  intros Hdrag Hslow. induction n as [| n (IHd & IHs & IHv & IHt)].
  - simpl. repeat split; try assumption; ring.
  - cbn [Nat.iter].
    destruct (physics_slow _ IHd IHs) as (Hd & Hs & Hv & Ht).
    split; [exact Hd |]. split; [exact Hs |].
    rewrite Nat2Z.inj_succ. unfold Z.succ.
    rewrite !Qpower_plus by (intros H; discriminate H).
    split.
    + rewrite Hv, IHv. change (0.828 ^ 1) with 0.828. ring.
    + rewrite Ht, IHt. change (0.92 ^ 1) with 0.92. ring.
Qed.

(** X17. While nobody drags and the spin velocity is in the slow regime
    (less than 0.05 after friction, as at start-up), it stays there, and
    frame after frame its distance to 5/172 degrees per frame shrinks by the
    factor 0.828: the idle spin settles at 5/172, not at 0.05.  The tilt
    velocity shrinks by the factor 0.92 a frame. *)
Theorem idle_spin_settles (n : nat) (g : Globe) :
  isDraggingRef g = false ->
  Num.abs (fst (velocityRef g) * 0.92) < 0.05 ->
  Num.abs (fst (velocityRef (Nat.iter n physics g)) * 0.92) < 0.05
  /\ fst (velocityRef (Nat.iter n physics g)) - (5 # 172)
     == 0.828 ^ Z.of_nat n * (fst (velocityRef g) - (5 # 172))
  /\ snd (velocityRef (Nat.iter n physics g)) == 0.92 ^ Z.of_nat n * snd (velocityRef g).
Proof.
  intros Hdrag Hslow.
  destruct (physics_iter_slow n g Hdrag Hslow) as (_ & Hs & Hv & Ht).
  repeat split; assumption.
Qed.

End Inertia.

Lemma idle_spin_settles_witness :
  fst (HoloGlobe.velocityRef (Nat.iter 3 HoloGlobe.physics (HoloGlobe.globe Sample.system0)))
  - (5 # 172)
  == 0.828 ^ 3 * (fst (HoloGlobe.velocityRef (HoloGlobe.globe Sample.system0)) - (5 # 172)).
Proof.
  apply (idle_spin_settles 3 (HoloGlobe.globe Sample.system0)); reflexivity.
Defined.

(** ** The pools over a run *)

Section Pools.
Import Types HoloGlobe Facts.
Context {d3 : D3}.
Variable canvas : Canvas.
Variable features : list CountryFeature.

Lemma key_advance (dt : Q) (ms : list Missile) : map key (map (advance dt) ms) = map key ms.
Proof.
  rewrite map_map. apply map_ext. reflexivity.
Qed.

Lemma handleMouseUp_pool (e : Point) (g : Globe) :
  missiles (fst (handleMouseUp canvas features e g)) = missiles g
  /\ lastTime (fst (handleMouseUp canvas features e g)) = lastTime g.
Proof.
  unfold handleMouseUp.
  destruct (isDraggingRef g); [| now split].
  destruct (isClick e g); [| now split].
  destruct (projectionInvert _ _); now split.
Qed.

Lemma render_lastTime (now : Z) (w : WarState) (sim : bool) (g : Globe) (rng : Rng.Stream) :
  lastTime (Rng.eval (render canvas now w sim g) rng) = now.
Proof.
  unfold render, Rng.eval. destruct (framePaths w sim) as [paths |]; [| reflexivity].
  unfold Rng.bind. now destruct (updateMissiles _ _ _ _ _ _ _ _).
Qed.

(** One input: the missiles are the old ones, or the old ones advanced by
    the step of the frame. *)
Lemma stepInput_pool (i : Input) (s : System) (rng : Rng.Stream) :
  let s' := Rng.eval (stepInput canvas features i s) rng in
  match i with
  | Frame now =>
      (missiles (globe s') = missiles (globe s)
       \/ missiles (globe s') = map (advance (frameDt now (globe s))) (missiles (globe s)))
      /\ lastTime (globe s') = now
  | _ => missiles (globe s') = missiles (globe s)
         /\ lastTime (globe s') = lastTime (globe s)
  end.
Proof.
  destruct i as [e | e | e | now]; cbv zeta.
  - now split.
  - unfold stepInput, Rng.eval, Rng.ret, withGlobe, handleMouseMove. simpl.
    destruct (isDraggingRef (globe s)); now split.
  - unfold stepInput, Rng.eval, Rng.ret, mouseUp. cbn [fst].
    pose proof (handleMouseUp_pool e (globe s)) as H.
    destruct (handleMouseUp canvas features e (globe s)) as [g' [c |]]; exact H.
  - unfold stepInput, frame.
    pose proof (render_missiles canvas now (App.warState (app s)) (App.isSimulating (app s))
                  (globe s) rng) as Hm.
    pose proof (render_lastTime now (App.warState (app s)) (App.isSimulating (app s))
                  (globe s) rng) as Ht.
    unfold Rng.eval, Rng.bind in *.
    destruct (render canvas now _ _ (globe s) rng) as [g' rng']. simpl in *.
    split; [| exact Ht].
    destruct (framePaths _ _); [right | left]; exact Hm.
Qed.

Lemma runInputs_cons (i : Input) (inputs : list Input) (s : System) (rng : Rng.Stream) :
  Rng.eval (runInputs canvas features (i :: inputs) s) rng
  = Rng.eval (runInputs canvas features inputs
                (fst (stepInput canvas features i s rng)))
             (snd (stepInput canvas features i s rng)).
Proof.
  simpl. unfold Rng.eval, Rng.bind.
  now destruct (stepInput canvas features i s rng).
Qed.

Lemma runInputs_key (inputs : list Input) (s : System) (rng : Rng.Stream) :
  map key (missiles (globe (Rng.eval (runInputs canvas features inputs s) rng)))
  = map key (missiles (globe s)).
Proof.
  revert s rng. induction inputs as [| i inputs IH]; intros s rng; [reflexivity |].
  rewrite runInputs_cons, IH.
  pose proof (stepInput_pool i s rng) as H. cbv zeta in H. unfold Rng.eval in H.
  destruct i; try (destruct H as [-> _]; reflexivity).
  destruct H as [[-> | ->] _]; [reflexivity | apply key_advance].
Qed.

(** X18. The missile pool is fixed: whatever pointer events and frames are
    processed, the pool has the same missiles in the same order, each with
    the identifier, the speed and the phase offset it was seeded with; only
    the progress changes. *)
Theorem missile_pool_is_fixed (inputs : list Input) (s : System) (rng : Rng.Stream) :
  map key (missiles (globe (Rng.eval (runInputs canvas features inputs s) rng)))
  = map key (missiles (globe s)).
Proof. apply runInputs_key. Qed.






End Pools.


(** ** Particles over a frame *)

Section Sparks.
Import Types HoloGlobe Facts.
Context {d3 : D3}.
Variable canvas : Canvas.

Lemma updateMissile_pushes (dt : Q) (rot : Rotation) (paths : list ConflictPath)
    (idx : nat) (m : Missile) (ps : list Particle) (g : Rng.Stream) :
  exists new : list Particle,
    snd (Rng.eval (updateMissile canvas dt rot paths idx m ps) g) = ps ++ new
    /\ (List.length new <= 1)%nat
    /\ Forall (fresh paths) new.
Proof.
  unfold updateMissile.
  destruct (nth_error paths (idx mod List.length paths)) as [p |] eqn:Ep.
  - assert (Hp : In (pathColor p) (map pathColor paths)).
    { apply in_map. eapply nth_error_In. exact Ep. }
    unfold Rng.eval, Rng.bind, Rng.ret, Rng.random.
    repeat match goal with
           | |- context [match ?x with _ => _ end] => destruct x
           end; cbn [fst snd];
      first [ exists []; rewrite app_nil_r; repeat split; [simpl; lia | constructor]
            | eexists [_]; repeat split;
              [simpl; lia | constructor; [repeat split; exact Hp | constructor]] ].
  - exists []. unfold Rng.eval, Rng.ret. simpl. rewrite app_nil_r.
    repeat split; [lia | constructor].
Qed.

Lemma updateMissiles_pushes (dt : Q) (rot : Rotation) (paths : list ConflictPath)
    (ms : list Missile) :
  forall (idx : nat) (ps : list Particle) (g : Rng.Stream),
  exists new : list Particle,
    snd (Rng.eval (updateMissiles canvas dt rot paths idx ms ps) g) = ps ++ new
    /\ (List.length new <= List.length ms)%nat
    /\ Forall (fresh paths) new.
Proof.
  induction ms as [| m ms IH]; intros idx ps g.
  - exists []. simpl. rewrite app_nil_r. repeat split; [lia | constructor].
  - cbn [updateMissiles]. unfold Rng.eval, Rng.bind.
    destruct (updateMissile_pushes dt rot paths idx m ps g) as (n1 & E1 & L1 & F1).
    unfold Rng.eval in E1.
    destruct (updateMissile canvas dt rot paths idx m ps g) as [mp g1].
    cbn [fst snd] in *.
    destruct (IH (S idx) (snd mp) g1) as (n2 & E2 & L2 & F2).
    unfold Rng.eval in E2.
    destruct (updateMissiles canvas dt rot paths (S idx) ms (snd mp) g1) as [rp g2].
    unfold Rng.ret. cbn [fst snd] in *.
    exists (n1 ++ n2). rewrite E2, E1, app_assoc. repeat split.
    + rewrite length_app. simpl. lia.
    + apply Forall_app. now split.
Qed.

(** X20. In one frame the missile loop keeps the particles that are there,
    in place, and pushes behind them at most one particle per missile, each
    with life and maximal life 1 and the colour of one of the paths. *)
Theorem missile_loop_pushes_fresh_particles (dt : Q) (rot : Rotation)
    (paths : list ConflictPath) (ms : list Missile) (ps : list Particle)
    (g : Rng.Stream) :
  exists new : list Particle,
    snd (Rng.eval (updateMissiles canvas dt rot paths 0 ms ps) g) = ps ++ new
    /\ (List.length new <= List.length ms)%nat
    /\ Forall (fresh paths) new.
Proof. apply updateMissiles_pushes. Qed.

Lemma sweep_alive (dt : Q) (ps : list Particle) :
  Forall (fun p => 0 < life p) (sweep dt ps).
Proof.
  unfold sweep. apply Forall_forall. intros p Hin.
  apply filter_In in Hin. destruct Hin as [_ Ha].
  unfold alive in Ha. apply negb_true_iff in Ha. now apply leb_gt in Ha.
Qed.

(** X21. After a frame that draws the war layer every particle in the list
    has a positive life, and the list is the one the missile loop left, each
    particle decayed, without those whose life ran out; a frame that does not
    draw the war layer leaves the particles as they are. *)
Theorem particles_after_a_frame (now : Z) (w : WarState) (sim : bool) (g : Globe)
    (rng : Rng.Stream) :
  match framePaths w sim with
  | Some paths =>
      Forall (fun p => 0 < life p) (particles (Rng.eval (render canvas now w sim g) rng))
      /\ particles (Rng.eval (render canvas now w sim g) rng)
         = filter alive
             (map (decay (frameDt now g))
                (snd (Rng.eval (updateMissiles canvas (frameDt now g)
                                  (rotationRef (physics g)) paths 0 (missiles g)
                                  (particles g)) rng)))
  | None => particles (Rng.eval (render canvas now w sim g) rng) = particles g
  end.
Proof.
  rewrite render_particles. destruct (framePaths w sim) as [paths |]; [| reflexivity].
  rewrite updateParticles_sweep. split; [apply sweep_alive | reflexivity].
Qed.

End Sparks.
